(** * React interview practice snippets: a shallow embedding

  The repository is a set of independent React components.  Each component
  is embedded as the state it keeps in its hooks together with the
  functions it defines (event handlers, effect bodies, state updaters).
  The host framework (hooks, [memo], context) is third-party code; the part
  of it the components rely on is modelled in [Module React], following the
  behaviour documented in the write-ups that accompany the snippets. *)

From Stdlib Require Import ZArith Bool.
From stdpp Require Import gmap strings list fin_maps pretty.

Open Scope string_scope.
Open Scope list_scope.

(** ** JavaScript values *)

Module JS.

(** Heap addresses: objects, arrays and functions are passed by reference. *)
Definition loc := positive.

(** Numbers are the integer-valued ones (counters, ids); they are kept as
    [Z], which is what the host computes for them below 2^53. *)
Inductive value : Type :=
| VUndefined
| VNull
| VBool (b : bool)
| VNum (n : Z)
| VStr (s : string)
| VObj (l : loc)     (* object or array: a reference *)
| VFun (l : loc).    (* function: a reference *)

#[global] Instance value_eq_dec : EqDecision value.
Proof. solve_decision. Defined.

(** [typeof v] *)
Definition typeof (v : value) : string :=
  match v with
  | VUndefined => "undefined"
  | VNull => "object"
  | VBool _ => "boolean"
  | VNum _ => "number"
  | VStr _ => "string"
  | VObj _ => "object"
  | VFun _ => "function"
  end.

Definition is_primitive (v : value) : bool :=
  match v with
  | VObj _ | VFun _ => false
  | _ => true
  end.

(** [a === b]: primitives by value, references by address. *)
Definition strict_eq (a b : value) : bool :=
  match a, b with
  | VUndefined, VUndefined => true
  | VNull, VNull => true
  | VBool x, VBool y => Bool.eqb x y
  | VNum x, VNum y => (x =? y)%Z
  | VStr x, VStr y => String.eqb x y
  | VObj l, VObj l' => (l =? l')%positive
  | VFun l, VFun l' => (l =? l')%positive
  | _, _ => false
  end.

(** [Object.is(a, b)]; on integer-valued numbers it agrees with [===]. *)
Definition object_is (a b : value) : bool := strict_eq a b.

(** [o[k]] on a plain object: a missing property reads as [undefined]. *)
Definition get (o : gmap string value) (k : string) : value :=
  default VUndefined (o !! k).

(** The heap: the own properties of every allocated object. *)
Definition get_field (h : gmap loc (gmap string value)) (v : value) (k : string) : value :=
  match v with
  | VObj l => match h !! l with Some o => get o k | None => VUndefined end
  | _ => VUndefined
  end.

(** What a component writes to the outside world. *)
Inductive output : Type :=
| ConsoleLog (args : list value)
| ConsoleError (args : list value)
| Alert (msg : string).

#[global] Instance output_eq_dec : EqDecision output.
Proof. solve_decision. Defined.

(** The statement that wrote an output: the function called and its first
    argument, the fixed label; what follows the label is data. *)
Definition statement (o : output) : string * option value :=
  match o with
  | ConsoleLog args => ("console.log", head args)
  | ConsoleError args => ("console.error", head args)
  | Alert _ => ("alert", None)
  end.

End JS.
Import JS.

(** ** The host framework *)

Module React.

(** Modelled from the spec: the framework's built-in shallow comparison of two
    props records, "performed field-by-field by reference/value, not
    recursively": the records have the same number of fields and every field
    of the first is a field of the second holding an [Object.is]-equal value.
    The heap is not an argument: the contents of a referenced object cannot be
    inspected. *)
Definition shallowEqual (a b : gmap string value) : bool :=
  bool_decide (size a = size b) &&
  forallb (λ kv, match b !! kv.1 with
                 | Some v' => object_is kv.2 v'
                 | None => false
                 end) (map_to_list a).

(** Modelled from the spec: [memo(body)], "a memoized wrapper that skips
    re-computation when shallow-equal input did not change".  [prev] holds the
    props of the last render of the wrapped component, if it was rendered
    before.  The result is what the body wrote, and the props now remembered. *)
Definition memo (body : gmap string value → list output)
    (prev : option (gmap string value)) (next : gmap string value)
  : list output * option (gmap string value) :=
  match prev with
  | Some p => if shallowEqual p next then ([], Some p) else (body next, Some next)
  | None => (body next, Some next)
  end.

(** Modelled from the spec: the comparison behind a dependency array, the
    "configuration list controlling when a side-effect callback re-executes":
    two arrays are the same when they have the same length and their items
    are pairwise [Object.is]-equal. *)
Fixpoint areHookInputsEqual (prev next : list value) : bool :=
  match prev, next with
  | [], [] => true
  | p :: prev', n :: next' => object_is p n && areHookInputsEqual prev' next'
  | _, _ => false
  end.

(** Modelled from the spec: when an effect with a dependency array runs; in
    the words of the write-up on [useEffect], "after the initial render, and
    whenever any of [the dependencies] change" (with [[]]: once).  [prev] is
    the array of the last commit, [None] before the first. *)
Definition effect_due (prev : option (list value)) (next : list value) : bool :=
  match prev with
  | None => true
  | Some p => negb (areHookInputsEqual p next)
  end.

(** Modelled from the spec: the host's state setter; [setState(v)] schedules
    a render unless [v] is [Object.is]-equal to the current state. *)
Definition state_changed (old new : value) : bool := negb (object_is old new).

(** Modelled from the spec: "context propagation", [useContext(C)]; the
    value of the nearest enclosing provider, or, as ThemeContext.jsx notes,
    the default handed to [createContext] "if no provider is available". *)
Definition useContext (provider : option (gmap string value))
    (defaultValue : gmap string value) : gmap string value :=
  default defaultValue provider.

End React.

(** ** prop/src/context/ThemeContext.jsx and prop/src/components/ThemeButton.jsx *)

Module ThemeContext.

(** [createContext({ theme: "light" })] *)
Definition defaultValue : gmap string value := {[ "theme" := VStr "light" ]}.

(** [useState("light")] *)
Definition initialTheme : value := VStr "light".

(** [(prevTheme) => (prevTheme === "light" ? "dark" : "light")] *)
Definition toggle_updater (prevTheme : value) : value :=
  if strict_eq prevTheme (VStr "light") then VStr "dark" else VStr "light".

(** [toggleTheme = () => setTheme(updater)]: the state becomes the updater's
    result on the current state. *)
Definition toggleTheme (theme : value) : value := toggle_updater theme.

(** The state of a mounted [ThemeProvider]: its [theme] hook, and the address
    of the [toggleTheme] closure its last render created. *)
Record provider : Type := Provider { theme : value; toggleTheme_ref : loc }.

Definition mount_provider : provider :=
  {| theme := initialTheme; toggleTheme_ref := 1%positive |}.

(** [value={{ theme, toggleTheme }}] *)
Definition provider_value (p : provider) : gmap string value :=
  <[ "theme" := theme p ]> {[ "toggleTheme" := VFun (toggleTheme_ref p) ]}.

(** The themes a provider can hold: the initial one, and what a call of
    [toggleTheme] makes of one of them. *)
Inductive reachable : value → Prop :=
| reachable_initial : reachable initialTheme
| reachable_toggle th : reachable th → reachable (toggleTheme th).

(** A tree of consumers, below a [ThemeProvider] (as in App.jsx) or not. *)
Record tree : Type := Tree { enclosing : option provider }.

Definition App : tree := {| enclosing := Some mount_provider |}.
Definition bare : tree := {| enclosing := None |}.

Definition context_of (t : tree) : gmap string value :=
  React.useContext (provider_value <$> enclosing t) defaultValue.

(** [const { toggleTheme } = useContext(ThemeContext);
     return <button onClick={toggleTheme}>] *)
Record button : Type := Button { onClick : value }.

Definition ThemeButton (ctx : gmap string value) : button :=
  {| onClick := get ctx "toggleTheme" |}.

(** [const { theme } = useContext(ThemeContext)] and the class name the
    sibling components render: [theme === "dark" ? "dark" : "light"]. *)
Definition Sibling_className (ctx : gmap string value) : string :=
  if strict_eq (get ctx "theme") (VStr "dark") then "dark" else "light".

(** A click calls the [onClick] prop when it is a function.  The only
    function a provider hands out is [toggleTheme]; the provider then renders
    again, with a new closure. *)
Definition click (t : tree) : tree :=
  match onClick (ThemeButton (context_of t)) with
  | VFun _ =>
      {| enclosing :=
           (λ p, {| theme := toggleTheme (theme p);
                    toggleTheme_ref := Pos.succ (toggleTheme_ref p) |})
             <$> enclosing t |}
  | _ => t
  end.

End ThemeContext.

(** ** controlled_uncontrolled_comp/src/components *)

Module Form.

(** What the user does: edit the field so that it holds [text] (the change
    event then carries [e.target.value = text]), or submit. *)
Inductive event : Type :=
| Typing (text : string)
| Submit.

End Form.

Module ControlledComponent.
Import Form.

(** [const [value, setValue] = useState("")] *)
Record state : Type := State { value : string }.

Definition init : state := {| value := "" |}.

(** [handleChange = (e) => { setValue(e.target.value); }] *)
Definition handleChange (e_target_value : string) (st : state) : state :=
  {| value := e_target_value |}.

(** [handleSubmit = (e) => { e.preventDefault();
                             alert("A name was submitted" + value); }]
    The boolean is the event's [defaultPrevented]. *)
Definition handleSubmit (st : state) : list output * bool :=
  ([Alert ("A name was submitted" +:+ value st)], true).

(** [<input type="text" onChange={handleChange} value={value} />]: the field
    shows the state. *)
Definition input_text (st : state) : string := value st.

(** A form submission whose default is not prevented loads the page again,
    which mounts the component afresh. *)
Definition step (st : state) (e : event) : list output * state :=
  match e with
  | Typing text => ([], handleChange text st)
  | Submit =>
      let (out, defaultPrevented) := handleSubmit st in
      (out, if defaultPrevented then st else init)
  end.

Fixpoint run (st : state) (evs : list event) : list output :=
  match evs with
  | [] => []
  | e :: evs' => let (out, st') := step st e in out ++ run st' evs'
  end.

End ControlledComponent.

Module UncontrolledComponent.
Import Form.

(** The DOM node of [<input type="text" ref={inputRef} />]; the browser keeps
    the text in the node itself. *)
Record input_element : Type := Input { value : string }.

(** [const inputRef = useRef(null)]: [inputRef.current] is [null] until the
    node is attached, and is the node itself (not a copy) afterwards. *)
Record state : Type := State { inputRef : option input_element }.

Definition init : state := {| inputRef := None |}.

(** After the first commit the ref holds the node, whose text is empty. *)
Definition mount (st : state) : state :=
  {| inputRef := Some {| value := "" |} |}.

(** [handleSubmit = () => { alert("A name was submitted" + inputRef.current.value); }]
    Reading [.value] of [null] throws: no result. *)
Definition handleSubmit (st : state) : option (list output) :=
  match inputRef st with
  | Some node => Some [Alert ("A name was submitted" +:+ value node)]
  | None => None
  end.

(** Typing has no handler: the node stores the text.  The submit button is
    not inside a form, so a click has no default action. *)
Definition step (st : state) (e : event) : option (list output * state) :=
  match e with
  | Typing text =>
      Some ([], {| inputRef := (λ _, {| value := text |}) <$> inputRef st |})
  | Submit =>
      match handleSubmit st with
      | Some out => Some (out, st)
      | None => None
      end
  end.

Fixpoint run (st : state) (evs : list event) : option (list output) :=
  match evs with
  | [] => Some []
  | e :: evs' =>
      match step st e with
      | Some (out, st') =>
          match run st' evs' with
          | Some outs => Some (out ++ outs)
          | None => None
          end
      | None => None
      end
  end.

End UncontrolledComponent.

(** ** memo/src/components/MemoizedChild.jsx and Parent.jsx *)

Module MemoizedChild.

Definition rendered : output := ConsoleLog [VStr "MemoizedChild is rendered!"].

(** [({ name }) => { console.log("MemoizedChild is rendered!"); return <div>...</div>; }] *)
Definition body (props : gmap string value) : list output := [rendered].

(** [export default memo(MemoizedChild)] *)
Definition render : option (gmap string value) → gmap string value
                    → list output * option (gmap string value) :=
  React.memo body.

End MemoizedChild.

Module Parent.

(** [useState(0)] and [useState("Sumit")] *)
Record hooks : Type := Hooks { count : Z; name : string }.

Definition init : hooks := {| count := 0; name := "Sumit" |}.

(** [<MemoizedChild name={name} />] *)
Definition child_props (h : hooks) : gmap string value :=
  {[ "name" := VStr (name h) ]}.

Definition rendered : output := ConsoleLog [VStr "Parent Rendered!"].

(** One render of [Parent]: its own log, then the memoized child, which
    remembers the props of its last render in [child]. *)
Definition render (h : hooks) (child : option (gmap string value))
  : list output * option (gmap string value) :=
  let (out, child') := MemoizedChild.render child (child_props h) in
  (rendered :: out, child').

Inductive event : Type :=
| ClickCount      (* the "Count is" button *)
| ClickName.      (* the "Change Name" button *)

#[global] Instance event_eq_dec : EqDecision event.
Proof. solve_decision. Defined.

(** [() => setCount(count + 1)] and [() => setName("Satyam")] *)
Definition handler (e : event) (h : hooks) : hooks :=
  match e with
  | ClickCount => {| count := count h + 1; name := name h |}
  | ClickName => {| count := count h; name := "Satyam" |}
  end.

Definition changed (h h' : hooks) : bool :=
  React.state_changed (VNum (count h)) (VNum (count h'))
  || React.state_changed (VStr (name h)) (VStr (name h')).

(** A mounted [Parent]: its hooks and the memo cell of its child. *)
Record instance : Type := Instance { state : hooks; child : option (gmap string value) }.

Definition mount : list output * instance :=
  let (out, c) := render init None in (out, {| state := init; child := c |}).

(** A click runs the handler of the last render; a changed state renders
    [Parent] again. *)
Definition step (i : instance) (e : event) : list output * instance :=
  let h' := handler e (state i) in
  if changed (state i) h' then
    let (out, c) := render h' (child i) in (out, {| state := h'; child := c |})
  else ([], i).

Fixpoint run (i : instance) (evs : list event) : list output * instance :=
  match evs with
  | [] => ([], i)
  | e :: evs' =>
      let (out, i') := step i e in
      let (outs, i'') := run i' evs' in
      (out ++ outs, i'')
  end.

End Parent.

(** ** useEffect_hook/useEffect.jsx: edge cases of [useEffect] *)

(** Arithmetic on the integer-valued numbers where their range matters.  A
    number is a double: every integer up to 2^53 in magnitude is one, and
    beyond that only those that fit 53 significant bits. *)

Module JSNumber.

(** 2^53, the first integer from which [n + 1] is no longer a number. *)
Definition two53 : Z := 9007199254740992.

(** The number nearest to the integer [z], ties going to the even
    significand.  (Magnitudes from 2^1024 on, which the host makes
    [Infinity], are not among the integers modelled.) *)
Definition round (z : Z) : Z :=
  let a := Z.abs z in
  if (a <=? two53)%Z then z
  else
    let e := (Z.log2 a - 52)%Z in
    let q := Z.shiftr a e in
    let r := Z.land a (Z.ones e) in
    let half := Z.shiftl 1 (e - 1) in
    let q' := if (r <? half)%Z then q
              else if (half <? r)%Z then (q + 1)%Z
              else if Z.even q then q else (q + 1)%Z in
    (Z.sgn z * Z.shiftl q' e)%Z.

(** [x + y] on numbers: the exact sum, rounded. *)
Definition add (x y : Z) : Z := round (x + y).

End JSNumber.

Module infiniteLoop.

(** [const [count, setCount] = useState(0)], the dependency array the effect
    was committed with last ([None] before the first commit), and whether a
    render is scheduled (by the mount, or by a [setCount] that changed the
    state). *)
Record instance : Type :=
  Instance { count : Z; effect_deps : option (list value); scheduled : bool }.

Definition mount_with (c : Z) : instance :=
  {| count := c; effect_deps := None; scheduled := true |}.

Definition mount : instance := mount_with 0.

(** [}, [count]);] *)
Definition deps (count : Z) : list value := [VNum count].

(** The effect of the render that saw [count]:
    [() => { setCount(count + 1); console.log("Effect ran, count:", count); }]
    It hands [count + 1], as the host computes it, to [setCount] and writes
    one line. *)
Definition effect (count : Z) : Z * list output :=
  (JSNumber.add count 1, [ConsoleLog [VStr "Effect ran, count:"; VNum count]]).

(** One pass of the cycle: render with the current state, commit, and run
    the effect if its dependencies changed. *)
Definition pass (i : instance) : list output * instance :=
  let c := count i in
  if React.effect_due (effect_deps i) (deps c) then
    let (next, out) := effect c in
    (out, {| count := next; effect_deps := Some (deps c);
             scheduled := React.state_changed (VNum c) (VNum next) |})
  else
    ([], {| count := c; effect_deps := Some (deps c); scheduled := false |}).

(** The scheduler: passes follow one another while one is scheduled; [fuel]
    bounds how many are observed. *)
Fixpoint run (fuel : nat) (i : instance) : list output * instance :=
  match fuel with
  | O => ([], i)
  | S fuel' =>
      if scheduled i then
        let (out, i') := pass i in
        let (outs, i'') := run fuel' i' in
        (out ++ outs, i'')
      else ([], i)
  end.

End infiniteLoop.

Module staleClosureComponent.

(** [useState(0)], the dependency array of the last commit, the timer set by
    [setInterval] (kept as the [count] its callback closed over) and whether
    the component is mounted. *)
Record instance : Type :=
  Instance { count : Z; effect_deps : option (list value);
             interval : option Z; mounted : bool }.

(** [}, []);] *)
Definition deps : list value := [].

(** [() => { console.log("Count is", count); }], closed over [count]. *)
Definition interval_callback (count : Z) : list output :=
  [ConsoleLog [VStr "Count is"; VNum count]].

(** The cleanup the effect returns: [() => { clearInterval(intervalId); }] *)
Definition cleanup (i : instance) : instance :=
  {| count := count i; effect_deps := effect_deps i;
     interval := None; mounted := mounted i |}.

(** Commit of a render that saw the state of [i]: when the effect is due,
    the previous cleanup runs and [setInterval] registers a callback closed
    over this render's [count]. *)
Definition commit (i : instance) : instance :=
  if React.effect_due (effect_deps i) deps then
    {| count := count i; effect_deps := Some deps;
       interval := Some (count i); mounted := true |}
  else
    {| count := count i; effect_deps := Some deps;
       interval := interval i; mounted := true |}.

Definition mount : instance :=
  commit {| count := 0; effect_deps := None; interval := None; mounted := false |}.

Inductive event : Type :=
| Click       (* the Increment button *)
| Tick        (* the timer fires *)
| Unmount.

#[global] Instance event_eq_dec : EqDecision event.
Proof. solve_decision. Defined.

(** [onClick={() => setCount(count + 1)}], from the last render. *)
Definition onClick (i : instance) : instance :=
  let next := (count i + 1)%Z in
  if React.state_changed (VNum (count i)) (VNum next) then
    commit {| count := next; effect_deps := effect_deps i;
              interval := interval i; mounted := mounted i |}
  else i.

Definition step (i : instance) (e : event) : list output * instance :=
  match e with
  | Click => if mounted i then ([], onClick i) else ([], i)
  | Tick =>
      match interval i with
      | Some captured => (interval_callback captured, i)
      | None => ([], i)
      end
  | Unmount =>
      if mounted i then
        let i' := cleanup i in
        ([], {| count := count i'; effect_deps := effect_deps i';
                interval := interval i'; mounted := false |})
      else ([], i)
  end.

Fixpoint run (i : instance) (evs : list event) : list output * instance :=
  match evs with
  | [] => ([], i)
  | e :: evs' =>
      let (out, i') := step i e in
      let (outs, i'') := run i' evs' in
      (out ++ outs, i'')
  end.

End staleClosureComponent.

(** The network, as far as the fetch examples use it. *)

Module Fetch.

Inductive status : Type :=
| Pending
| Aborted      (* abort requested; the promise rejects with an AbortError *)
| Settled.     (* the promise was fulfilled or rejected and handled *)

#[global] Instance status_eq_dec : EqDecision status.
Proof. solve_decision. Defined.

(** A request started by [fetch(url, { signal })]; [signal] is [None] when
    no options were passed. *)
Record request : Type :=
  Request { url : string; signal : option loc; state : status }.

(** [controller.abort()]: the pending requests started with that
    controller's signal are aborted. *)
Definition abort (s : loc) (reqs : list request) : list request :=
  map (λ r, if bool_decide (signal r = Some s) && bool_decide (state r = Pending)
            then {| url := url r; signal := signal r; state := Aborted |}
            else r) reqs.

Definition settle (k : nat) (reqs : list request) : list request :=
  alter (λ r, {| url := url r; signal := signal r; state := Settled |}) k reqs.

(** What the network and the parent do to a component that fetches a user. *)
Inductive event : Type :=
| SetUserId (id : Z)                   (* the parent passes a new [userId] *)
| Resolve (k : nat) (data : value)     (* request [k] answers with [data] *)
| Reject (k : nat) (error : value).    (* the promise of request [k] rejects *)

End Fetch.

Module RaceConditionComponent.
Import Fetch.

(** The prop [userId], [useState(null)], [useState(true)], the dependency
    array of the last commit, what the last run of the effect returned
    ([None]: nothing; [Some s]: a cleanup that aborts signal [s]) and the
    requests started so far. *)
Record instance : Type :=
  Instance { userId : Z; user : value; loading : bool;
             effect_deps : option (list value); cleanup : option loc;
             requests : list request }.

(** [}, [userId]);] *)
Definition deps (userId : Z) : list value := [VNum userId].

(** The effect of the render that saw [userId]:
    [setLoading(true); setUser(null); console.log(`Fetching user ${userId}...`);
     fetch(`/api/users/${userId}`).then(...).then(...).catch(...);]
    No options are passed to [fetch] and nothing is returned. *)
Definition effect (userId : Z) (i : instance) : list output * instance :=
  ([ConsoleLog [VStr ("Fetching user " +:+ pretty userId +:+ "...")]],
   {| userId := userId; user := VNull; loading := true;
      effect_deps := Some (deps userId); cleanup := None;
      requests := requests i
                  ++ [{| url := "/api/users/" +:+ pretty userId;
                         signal := None; state := Pending |}] |}).

(** [.then((data) => { setUser(data); setLoading(false); })] *)
Definition on_data (data : value) (i : instance) : instance :=
  {| userId := userId i; user := data; loading := false;
     effect_deps := effect_deps i; cleanup := cleanup i;
     requests := requests i |}.

(** [.catch((error) => { console.error("Fetch error:", error); setLoading(false); })] *)
Definition on_error (error : value) (i : instance) : list output * instance :=
  ([ConsoleError [VStr "Fetch error:"; error]],
   {| userId := userId i; user := user i; loading := false;
      effect_deps := effect_deps i; cleanup := cleanup i;
      requests := requests i |}).

Definition with_requests (reqs : list request) (i : instance) : instance :=
  {| userId := userId i; user := user i; loading := loading i;
     effect_deps := effect_deps i; cleanup := cleanup i; requests := reqs |}.

(** The cleanup of the previous run of the effect, when it returned one. *)
Definition run_cleanup (i : instance) : instance :=
  match cleanup i with
  | Some s => with_requests (abort s (requests i)) i
  | None => i
  end.

Definition mount (userId : Z) : list output * instance :=
  effect userId {| userId := userId; user := VNull; loading := true;
                   effect_deps := None; cleanup := None; requests := [] |}.

Definition step (i : instance) (e : event) : list output * instance :=
  match e with
  | SetUserId id =>
      if React.effect_due (effect_deps i) (deps id)
      then effect id (run_cleanup i)
      else ([], i)
  | Resolve k data =>
      match requests i !! k with
      | Some {| state := Pending |} =>
          ([], on_data data (with_requests (settle k (requests i)) i))
      | _ => ([], i)
      end
  | Reject k error =>
      match requests i !! k with
      | Some {| state := Settled |} | None => ([], i)
      | Some _ => on_error error (with_requests (settle k (requests i)) i)
      end
  end.

Fixpoint run (i : instance) (evs : list event) : list output * instance :=
  match evs with
  | [] => ([], i)
  | e :: evs' =>
      let (out, i') := step i e in
      let (outs, i'') := run i' evs' in
      (out ++ outs, i'')
  end.

End RaceConditionComponent.

(** Reading a property. *)

Module JSObject.

(** [v.k]: reading a property of [undefined] or [null] throws a TypeError (no
    result); an object or function is looked up in the heap; any other
    primitive has no own property of the names read here. *)
Definition member (h : gmap loc (gmap string value)) (v : value) (k : string)
  : option value :=
  match v with
  | VUndefined | VNull => None
  | VObj l | VFun l => Some (get (default ∅ (h !! l)) k)
  | _ => Some VUndefined
  end.

End JSObject.

(** The corrected component of the write-up that accompanies the edge
    cases: the same fetch, tied to an [AbortController]. *)

Module CorrectedRaceConditionComponent.
Import Fetch.

Record instance : Type :=
  Instance { userId : Z; user : value; loading : bool;
             effect_deps : option (list value); cleanup : option loc;
             requests : list request }.

Definition deps (userId : Z) : list value := [VNum userId].

(** [const abortController = new AbortController();]: a fresh signal. *)
Definition new_signal (i : instance) : loc := Pos.of_succ_nat (length (requests i)).

(** [setLoading(true); setUser(null); fetchUser();
     return () => { abortController.abort(); };]
    where [fetchUser] logs and calls [fetch(`/api/users/${userId}`, { signal })]. *)
Definition effect (userId : Z) (i : instance) : list output * instance :=
  let s := new_signal i in
  ([ConsoleLog [VStr ("Fetching user " +:+ pretty userId +:+ "...")]],
   {| userId := userId; user := VNull; loading := true;
      effect_deps := Some (deps userId); cleanup := Some s;
      requests := requests i
                  ++ [{| url := "/api/users/" +:+ pretty userId;
                         signal := Some s; state := Pending |}] |}).

(** [setUser(data);] then [finally { setLoading(false); }] *)
Definition on_data (data : value) (i : instance) : instance :=
  {| userId := userId i; user := data; loading := false;
     effect_deps := effect_deps i; cleanup := cleanup i;
     requests := requests i |}.

(** [catch (error) {
       if (error.name === "AbortError") { console.log("Fetch aborted for user:", userId); }
       else { console.error("Fetch error:", error); }
     }]
    [userId] is the one of the render whose effect started the request.
    What the block writes, or no result when reading [error.name] throws:
    the TypeError leaves the block, and [fetchUser] rejects with it. *)
Definition catch_block (h : gmap loc (gmap string value)) (userId : Z)
    (error : value) : option (list output) :=
  match JSObject.member h error "name" with
  | Some name =>
      Some (if strict_eq name (VStr "AbortError")
            then [ConsoleLog [VStr "Fetch aborted for user:"; VNum userId]]
            else [ConsoleError [VStr "Fetch error:"; error]])
  | None => None
  end.

(** The catch block, then [finally { setLoading(false); }], which runs
    whether the catch block finished or threw. *)
Definition on_error (h : gmap loc (gmap string value)) (userId : Z)
    (error : value) (i : instance) : list output * instance :=
  (default [] (catch_block h userId error),
   {| userId := CorrectedRaceConditionComponent.userId i; user := user i;
      loading := false; effect_deps := effect_deps i; cleanup := cleanup i;
      requests := requests i |}).

Definition with_requests (reqs : list request) (i : instance) : instance :=
  {| userId := userId i; user := user i; loading := loading i;
     effect_deps := effect_deps i; cleanup := cleanup i; requests := reqs |}.

Definition run_cleanup (i : instance) : instance :=
  match cleanup i with
  | Some s => with_requests (abort s (requests i)) i
  | None => i
  end.

Definition mount (userId : Z) : list output * instance :=
  effect userId {| userId := userId; user := VNull; loading := true;
                   effect_deps := None; cleanup := None; requests := [] |}.

(** A change of [userId]: the cleanup of the previous run, then the effect. *)
Definition set_userId (id : Z) (i : instance) : list output * instance :=
  if React.effect_due (effect_deps i) (deps id)
  then effect id (run_cleanup i)
  else ([], i).

End CorrectedRaceConditionComponent.

(** ** controlled_uncontrolled_comp: the state lifted to a parent *)

Module ChildComponent.

(** [handleChange = (event) => { setValue(event.target.value); }], where
    [setValue] is the prop handed down by the parent. *)
Definition handleChange {S : Type} (setValue : string → S → S)
    (event_target_value : string) : S → S :=
  setValue event_target_value.

(** [handleSubmit = (e) => { e.preventDefault();
                             alert("A name was submitted" + value); }]
    on the prop [value]; the boolean is [defaultPrevented]. *)
Definition handleSubmit (value : string) : list output * bool :=
  ([Alert ("A name was submitted" +:+ value)], true).

End ChildComponent.

Module ParentComponent.
Import Form.

(** [const [inputValue, setInputValue] = useState("")] *)
Record state : Type := State { inputValue : string }.

Definition init : state := {| inputValue := "" |}.

Definition setInputValue (v : string) (st : state) : state :=
  {| inputValue := v |}.

(** [<ChildComponent value={inputValue} setValue={setInputValue} />]: the
    child's handlers run on the parent's state. *)
Definition step (st : state) (e : event) : list output * state :=
  match e with
  | Typing text => ([], ChildComponent.handleChange setInputValue text st)
  | Submit =>
      let (out, defaultPrevented) := ChildComponent.handleSubmit (inputValue st) in
      (out, if defaultPrevented then st else init)
  end.

Fixpoint run (st : state) (evs : list event) : list output :=
  match evs with
  | [] => []
  | e :: evs' => let (out, st') := step st e in out ++ run st' evs'
  end.

End ParentComponent.

Module FormSession.
Import Form.

#[global] Instance event_eq_dec : EqDecision event.
Proof. solve_decision. Defined.

(** The state of [ControlledComponent] after a sequence of events. *)
Definition final (st : ControlledComponent.state) (evs : list event)
  : ControlledComponent.state :=
  fold_left (λ s e, (ControlledComponent.step s e).2) evs st.

(** The texts typed, in order. *)
Definition typed (evs : list event) : list string :=
  omap (λ e, match e with Typing text => Some text | Submit => None end) evs.

End FormSession.

(** ** memo/README.md: the walkthrough's examples *)

Module MemoExample.

Definition app_rendering : output :=
  ConsoleLog [VStr "App component rendering..."].
Definition without_memo_rendering : output :=
  ConsoleLog [VStr "ChildComponentWithoutMemo rendering..."].
Definition memoized_rendering : output :=
  ConsoleLog [VStr "MemoizedChildComponent rendering..."].

(** [function ChildComponentWithoutMemo({ count }) { console.log(...); ... }] *)
Definition ChildComponentWithoutMemo (props : gmap string value) : list output :=
  [without_memo_rendering].

(** [React.memo(function MemoizedChildComponent({ text }) { console.log(...); ... })] *)
Definition MemoizedChildComponent
  : option (gmap string value) → gmap string value
    → list output * option (gmap string value) :=
  React.memo (λ _, [memoized_rendering]).

(** [useState(0)] twice: [parentCount] and [otherState]. *)
Record hooks : Type := Hooks { parentCount : Z; otherState : Z }.

Definition init : hooks := {| parentCount := 0; otherState := 0 |}.

(** A mounted [App]: its hooks and the memo cells of its two memoized
    children, the one with the constant text and the one with the dynamic
    text. *)
Record instance : Type :=
  Instance { state : hooks;
             constant_child : option (gmap string value);
             dynamic_child : option (gmap string value) }.

(** [<ChildComponentWithoutMemo count={parentCount} />
     <MemoizedChildComponent text="Hello Memo!" />
     <MemoizedChildComponent text={`Dynamic Memo Text: ${parentCount}`} />] *)
Definition render (h : hooks) (c d : option (gmap string value))
  : list output * (option (gmap string value) * option (gmap string value)) :=
  let out0 := ChildComponentWithoutMemo {[ "count" := VNum (parentCount h) ]} in
  let (out1, c') := MemoizedChildComponent c {[ "text" := VStr "Hello Memo!" ]} in
  let (out2, d') :=
    MemoizedChildComponent d
      {[ "text" := VStr ("Dynamic Memo Text: " +:+ pretty (parentCount h)) ]} in
  (app_rendering :: out0 ++ out1 ++ out2, (c', d')).

Inductive event : Type :=
| IncrementParent     (* "Increment Parent Count" *)
| UpdateOther.        (* "Update Other State (Not passed to children)" *)

#[global] Instance event_eq_dec : EqDecision event.
Proof. solve_decision. Defined.

(** [setParentCount((prev) => prev + 1)] and [setOtherState((prev) => prev + 1)] *)
Definition handler (e : event) (h : hooks) : hooks :=
  match e with
  | IncrementParent => {| parentCount := parentCount h + 1; otherState := otherState h |}
  | UpdateOther => {| parentCount := parentCount h; otherState := otherState h + 1 |}
  end.

Definition changed (h h' : hooks) : bool :=
  React.state_changed (VNum (parentCount h)) (VNum (parentCount h'))
  || React.state_changed (VNum (otherState h)) (VNum (otherState h')).

Definition mount : list output * instance :=
  let '(out, (c, d)) := render init None None in
  (out, {| state := init; constant_child := c; dynamic_child := d |}).

Definition step (i : instance) (e : event) : list output * instance :=
  let h' := handler e (state i) in
  if changed (state i) h' then
    let '(out, (c, d)) := render h' (constant_child i) (dynamic_child i) in
    (out, {| state := h'; constant_child := c; dynamic_child := d |})
  else ([], i).

Fixpoint run (i : instance) (evs : list event) : list output * instance :=
  match evs with
  | [] => ([], i)
  | e :: evs' =>
      let (out, i') := step i e in
      let (outs, i'') := run i' evs' in
      (out ++ outs, i'')
  end.

End MemoExample.

(** memo/README.md, "Example of the shallow comparison pitfall" *)

Module MyButtonExample.

Definition rendered : output := ConsoleLog [VStr "MyButton rendered"].

(** [const MyButton = memo(({ onClick }) => { console.log("MyButton rendered"); ... })] *)
Definition MyButton
  : option (gmap string value) → gmap string value
    → list output * option (gmap string value) :=
  React.memo (λ _, [rendered]).

(** A function object made by a render: its address and the [count] its body
    closed over. *)
Record closure : Type := Closure { address : loc; captured : Z }.

(** [useState(0)]; the next free address; the cell of [useMemo] (the
    dependency array it was computed for and the function it holds); the
    memo cells of the two buttons. *)
Record instance : Type :=
  Instance { count : Z; next_address : loc;
             memoized : option (list value * closure);
             problem_button : option (gmap string value);
             solution_button : option (gmap string value) }.

(** [useMemo(() => { return () => setCount(count + 1); }, [count])]: the held
    function when the dependencies are the same, a new one otherwise. *)
Definition useMemo (cell : option (list value * closure)) (count : Z) (fresh : loc)
  : closure * loc :=
  match cell with
  | Some (deps, f) =>
      if React.areHookInputsEqual deps [VNum count] then (f, fresh)
      else ({| address := fresh; captured := count |}, Pos.succ fresh)
  | None => ({| address := fresh; captured := count |}, Pos.succ fresh)
  end.

(** One render of [ParentComponent]: [handleClickProblem] is a new function,
    [handleClickSolution] comes from [useMemo]; then
    [<MyButton onClick={handleClickProblem} />
     <MyButton onClick={handleClickSolution} />]. *)
Definition render (i : instance) : list output * instance :=
  let handleClickProblem := {| address := next_address i; captured := count i |} in
  let (handleClickSolution, next) :=
    useMemo (memoized i) (count i) (Pos.succ (next_address i)) in
  let (out1, b1) :=
    MyButton (problem_button i) {[ "onClick" := VFun (address handleClickProblem) ]} in
  let (out2, b2) :=
    MyButton (solution_button i) {[ "onClick" := VFun (address handleClickSolution) ]} in
  (out1 ++ out2,
   {| count := count i; next_address := next;
      memoized := Some ([VNum (count i)], handleClickSolution);
      problem_button := b1; solution_button := b2 |}).

Definition mount : list output * instance :=
  render {| count := 0; next_address := 1%positive; memoized := None;
            problem_button := None; solution_button := None |}.

Inductive event : Type :=
| ClickProblem      (* the first button: [handleClickProblem] *)
| ClickSolution     (* the second button: [handleClickSolution] *)
| Rerender.         (* [ParentComponent] renders again with its state as it is *)

#[global] Instance event_eq_dec : EqDecision event.
Proof. solve_decision. Defined.

(** [setCount(count + 1)] on the [count] the clicked function closed over. *)
Definition set_count (c : Z) (i : instance) : list output * instance :=
  let next := (c + 1)%Z in
  if React.state_changed (VNum (count i)) (VNum next) then
    render {| count := next; next_address := next_address i;
              memoized := memoized i; problem_button := problem_button i;
              solution_button := solution_button i |}
  else ([], i).

Definition step (i : instance) (e : event) : list output * instance :=
  match e with
  | ClickProblem => set_count (count i) i
  | ClickSolution =>
      match memoized i with
      | Some (_, f) => set_count (captured f) i
      | None => ([], i)
      end
  | Rerender => render i
  end.

Fixpoint run (i : instance) (evs : list event) : list output * instance :=
  match evs with
  | [] => ([], i)
  | e :: evs' =>
      let (out, i') := step i e in
      let (outs, i'') := run i' evs' in
      (out ++ outs, i'')
  end.

End MyButtonExample.

(** memo/README.md, "Custom Comparison Function" *)

Module MyComplexComponent.

(** What a property of a [user] object holds: a value, or the number [NaN],
    which the comparison below tells apart from every value and from itself. *)
Inductive field : Type :=
| Plain (v : value)
| NaN.

#[global] Instance field_eq_dec : EqDecision field.
Proof. solve_decision. Defined.

(** [a === b] on what properties hold: [NaN] is equal to nothing. *)
Definition strict_eq (a b : field) : bool :=
  match a, b with
  | Plain x, Plain y => JS.strict_eq x y
  | _, _ => false
  end.

(** [v.k]: reading a property of [undefined] or [null] throws (no result);
    an object or function is looked up in the heap, a missing property
    reading as [undefined]; any other primitive has no such property. *)
Definition member (h : gmap loc (gmap string field)) (v : value) (k : string)
  : option field :=
  match v with
  | VUndefined | VNull => None
  | VObj l | VFun l => Some (default (Plain VUndefined) (default ∅ (h !! l) !! k))
  | _ => Some (Plain VUndefined)
  end.

(** [(prevProps, nextProps) =>
       prevProps.user.name === nextProps.user.name &&
       prevProps.user.age === nextProps.user.age] *)
Definition arePropsEqual (h : gmap loc (gmap string field))
    (prevProps nextProps : gmap string value) : option bool :=
  match member h (get prevProps "user") "name" with
  | None => None
  | Some prev_name =>
      match member h (get nextProps "user") "name" with
      | None => None
      | Some next_name =>
          if strict_eq prev_name next_name then
            match member h (get prevProps "user") "age" with
            | None => None
            | Some prev_age =>
                match member h (get nextProps "user") "age" with
                | None => None
                | Some next_age => Some (strict_eq prev_age next_age)
                end
            end
          else Some false
      end
  end.

Definition is_nullish (v : value) : bool :=
  match v with
  | VUndefined | VNull => true
  | _ => false
  end.

End MyComplexComponent.

(** ** useEffect.jsx, edge case 3: the resize listener *)

Module ResizeListener.

(** The two versions of the component: the snippet's [NoCleanupComponent]
    (the same as [ProperCleanupComponent] of the write-up), whose effect
    returns [() => { window.removeEventListener("resize", handleResize); }],
    and the write-up's [NoCleanupComponent], whose effect returns nothing. *)
Inductive version : Type :=
| ReturnsCleanup
| ReturnsNothing.

(** A mounted component: [useState(window.innerWidth)], the [handleResize]
    function its effect created, and the listener its cleanup removes. *)
Record mounted : Type :=
  Mounted { width : Z; handleResize : loc; cleanup : option loc }.

(** [window]: its inner width and its resize listeners, the next free
    address, and the component when it is mounted. *)
Record world : Type :=
  World { innerWidth : Z; listeners : list loc; next_address : loc;
          component : option mounted }.

Definition start (w : Z) : world :=
  {| innerWidth := w; listeners := []; next_address := 1%positive;
     component := None |}.

Inductive event : Type :=
| Mount
| Unmount
| Resize (w : Z).     (* the window is resized to inner width [w] *)

(** Mounting: the state is initialised from [window.innerWidth]; the effect
    (dependencies [[]], so it runs this once) makes
    [handleResize = () => setWidth(window.innerWidth)] and adds it with
    [window.addEventListener("resize", handleResize)]. *)
Definition mount (v : version) (w : world) : world :=
  let h := next_address w in
  {| innerWidth := innerWidth w;
     listeners := listeners w ++ [h];
     next_address := Pos.succ h;
     component :=
       Some {| width := innerWidth w; handleResize := h;
               cleanup := match v with
                          | ReturnsCleanup => Some h
                          | ReturnsNothing => None
                          end |} |}.

(** [window.removeEventListener("resize", h)] *)
Definition removeEventListener (h : loc) (ls : list loc) : list loc :=
  filter (λ l, l ≠ h) ls.

(** Unmounting runs the cleanup the effect returned, if it returned one. *)
Definition unmount (w : world) (m : mounted) : world :=
  {| innerWidth := innerWidth w;
     listeners := match cleanup m with
                  | Some h => removeEventListener h (listeners w)
                  | None => listeners w
                  end;
     next_address := next_address w;
     component := None |}.

(** A resize calls every listener; [handleResize] of the mounted component
    sets its state to the new [window.innerWidth]; a listener left behind by
    an unmounted component has no state to set. *)
Definition resize (new_width : Z) (w : world) : world :=
  {| innerWidth := new_width;
     listeners := listeners w;
     next_address := next_address w;
     component :=
       match component w with
       | Some m =>
           if bool_decide (handleResize m ∈ listeners w)
           then Some {| width := new_width; handleResize := handleResize m;
                        cleanup := cleanup m |}
           else Some m
       | None => None
       end |}.

Definition step (v : version) (w : world) (e : event) : world :=
  match e, component w with
  | Mount, None => mount v w
  | Mount, Some _ => w
  | Unmount, Some m => unmount w m
  | Unmount, None => w
  | Resize x, _ => resize x w
  end.

Definition run (v : version) (w : world) (evs : list event) : world :=
  fold_left (step v) evs w.

(** One mount followed by an unmount. *)
Definition cycle (v : version) (w : world) : world :=
  step v (step v w Mount) Unmount.

End ResizeListener.

(** ** useEffect.jsx, edge cases 6 and 7 *)

Module OverOptimizedComponent.

(** The function [logCount]: its address and the [count] it closed over. *)
Record closure : Type := Closure { address : loc; captured : Z }.

(** [useState(0)]; the next free address; the cell of [useCallback] (the
    dependency array and the function held); the dependency array of the
    effect's last commit. *)
Record instance : Type :=
  Instance { count : Z; next_address : loc;
             logCount : option (list value * closure);
             effect_deps : option (list value) }.

(** [const logCount = useCallback(() => { console.log("Current count:", count); }, [count]);] *)
Definition useCallback (cell : option (list value * closure)) (count : Z) (fresh : loc)
  : closure * loc :=
  match cell with
  | Some (deps, f) =>
      if React.areHookInputsEqual deps [VNum count] then (f, fresh)
      else ({| address := fresh; captured := count |}, Pos.succ fresh)
  | None => ({| address := fresh; captured := count |}, Pos.succ fresh)
  end.

(** Calling [logCount]. *)
Definition call (f : closure) : list output :=
  [ConsoleLog [VStr "Current count:"; VNum (captured f)]].

(** A render and its commit: [useEffect(() => { logCount(); }, [logCount]);] *)
Definition render (i : instance) : list output * instance :=
  let (f, next) := useCallback (logCount i) (count i) (next_address i) in
  let deps := [VFun (address f)] in
  (if React.effect_due (effect_deps i) deps then call f else [],
   {| count := count i; next_address := next;
      logCount := Some ([VNum (count i)], f); effect_deps := Some deps |}).

Definition mount : list output * instance :=
  render {| count := 0; next_address := 1%positive; logCount := None;
            effect_deps := None |}.

Inductive event : Type :=
| Click         (* [onClick={() => setCount(count + 1)}] *)
| Rerender.     (* a render with the state as it is *)

#[global] Instance event_eq_dec : EqDecision event.
Proof. solve_decision. Defined.

Definition step (i : instance) (e : event) : list output * instance :=
  match e with
  | Click =>
      let next := (count i + 1)%Z in
      if React.state_changed (VNum (count i)) (VNum next) then
        render {| count := next; next_address := next_address i;
                  logCount := logCount i; effect_deps := effect_deps i |}
      else ([], i)
  | Rerender => render i
  end.

Fixpoint run (i : instance) (evs : list event) : list output * instance :=
  match evs with
  | [] => ([], i)
  | e :: evs' =>
      let (out, i') := step i e in
      let (outs, i'') := run i' evs' in
      (out ++ outs, i'')
  end.

End OverOptimizedComponent.

Module UserProfile.

(** The version marked GOOD: [const fullName = `${firstName} ${lastName}`;],
    computed in the render. *)
Definition derived (firstName lastName : string) : string :=
  firstName +:+ " " +:+ lastName.

(** The version marked BAD: [useState("")] and the dependency array of the
    effect's last commit. *)
Record instance : Type :=
  Instance { fullName : string; effect_deps : option (list value) }.

Definition init : instance := {| fullName := ""; effect_deps := None |}.

(** A render with props [firstName], [lastName] shows [<div>{fullName}</div>];
    then [useEffect(() => { setFullName(`${firstName} ${lastName}`); },
    [firstName, lastName])] may set the state, which renders again.  The
    result is what was shown, render by render, and the state. *)
Definition update (firstName lastName : string) (i : instance)
  : list string * instance :=
  let deps := [VStr firstName; VStr lastName] in
  if React.effect_due (effect_deps i) deps then
    let next := derived firstName lastName in
    if React.state_changed (VStr (fullName i)) (VStr next)
    then ([fullName i; next], {| fullName := next; effect_deps := Some deps |})
    else ([fullName i], {| fullName := fullName i; effect_deps := Some deps |})
  else ([fullName i], {| fullName := fullName i; effect_deps := Some deps |}).

(** A sequence of props: the first mounts the component. *)
Fixpoint run (i : instance) (props : list (string * string))
  : list (list string) * instance :=
  match props with
  | [] => ([], i)
  | (f, l) :: props' =>
      let (shown, i') := update f l i in
      let (rest, i'') := run i' props' in
      (shown :: rest, i'')
  end.

End UserProfile.

Module ButtonEffect.

Definition clicked_log : output := ConsoleLog [VStr "Button was clicked!"].

(** [useState(false)], the dependency array of the effect's last commit, and
    whether a render is scheduled. *)
Record instance : Type :=
  Instance { clicked : bool; effect_deps : option (list value); scheduled : bool }.

Definition mount : instance :=
  {| clicked := false; effect_deps := None; scheduled := true |}.

(** [}, [clicked]);] *)
Definition deps (clicked : bool) : list value := [VBool clicked].

(** The effect of the render that saw [clicked]:
    [if (clicked) { console.log("Button was clicked!"); setClicked(false); }]
    It writes, and hands a new state to [setClicked], or does neither. *)
Definition effect (clicked : bool) : list output * option bool :=
  if clicked then ([clicked_log], Some false) else ([], None).

(** One pass: render, commit, and the effect if its dependencies changed. *)
Definition pass (i : instance) : list output * instance :=
  let c := clicked i in
  if React.effect_due (effect_deps i) (deps c) then
    match effect c with
    | (out, Some next) =>
        (out, {| clicked := next; effect_deps := Some (deps c);
                 scheduled := React.state_changed (VBool c) (VBool next) |})
    | (out, None) =>
        (out, {| clicked := c; effect_deps := Some (deps c); scheduled := false |})
    end
  else ([], {| clicked := c; effect_deps := Some (deps c); scheduled := false |}).

Fixpoint run (fuel : nat) (i : instance) : list output * instance :=
  match fuel with
  | O => ([], i)
  | S fuel' =>
      if scheduled i then
        let (out, i') := pass i in
        let (outs, i'') := run fuel' i' in
        (out ++ outs, i'')
      else ([], i)
  end.

(** [onClick={() => setClicked(true)}] *)
Definition onClick (i : instance) : instance :=
  if React.state_changed (VBool (clicked i)) (VBool true)
  then {| clicked := true; effect_deps := effect_deps i; scheduled := true |}
  else i.

(** [n] clicks, the passes after each one given [fuel]. *)
Fixpoint clicks (fuel n : nat) (i : instance) : list output * instance :=
  match n with
  | O => ([], i)
  | S n' =>
      let (out, i') := run fuel (onClick i) in
      let (outs, i'') := clicks fuel n' i' in
      (out ++ outs, i'')
  end.

End ButtonEffect.

Module ButtonHandler.

(** [handleClick = () => { console.log("Button was clicked!"); }] *)
Definition handleClick : list output := [ButtonEffect.clicked_log].

Fixpoint clicks (n : nat) : list output :=
  match n with
  | O => []
  | S n' => handleClick ++ clicks n'
  end.

End ButtonHandler.

(** ** The write-up's corrected components *)

(** The write-up's [CorrectedStaleClosure]: one effect logs the count from a
    timer and depends on [count]; a second one, set once, increments it. *)

Module CorrectedStaleClosure.

(** [useState(0)]; for the first effect the dependency array of its last
    commit and its timer (kept as the [count] the callback closed over); for
    the second effect the same, its timer being set or not; and whether the
    component is mounted. *)
Record instance : Type :=
  Instance { count : Z;
             log_deps : option (list value); log_interval : option Z;
             inc_deps : option (list value); inc_interval : bool;
             mounted : bool }.

(** [() => { console.log("Current count from interval:", count); }] *)
Definition log_callback (count : Z) : list output :=
  [ConsoleLog [VStr "Current count from interval:"; VNum count]].

(** Commit of a render that saw the state of [i].  First effect,
    dependencies [[count]]: when due, its cleanup clears the previous timer
    and a new one is set, closed over this render's [count].  Second effect,
    dependencies [[]]: when due, its timer is set. *)
Definition commit (i : instance) : instance :=
  let deps := [VNum (count i)] in
  {| count := count i;
     log_deps := Some deps;
     log_interval := if React.effect_due (log_deps i) deps
                     then Some (count i) else log_interval i;
     inc_deps := Some [];
     inc_interval := if React.effect_due (inc_deps i) [] then true else inc_interval i;
     mounted := true |}.

Definition mount : instance :=
  commit {| count := 0; log_deps := None; log_interval := None;
            inc_deps := None; inc_interval := false; mounted := false |}.

Inductive event : Type :=
| Click        (* the Increment button *)
| TickLog      (* the timer of the first effect fires *)
| TickInc      (* the timer of the second effect fires *)
| Unmount.

#[global] Instance event_eq_dec : EqDecision event.
Proof. solve_decision. Defined.

(** A state update to [next], and the render it causes. *)
Definition set_count (next : Z) (i : instance) : instance :=
  if React.state_changed (VNum (count i)) (VNum next) then
    commit {| count := next; log_deps := log_deps i; log_interval := log_interval i;
              inc_deps := inc_deps i; inc_interval := inc_interval i;
              mounted := mounted i |}
  else i.

(** [onClick={() => setCount(count + 1)}] from the last render, and the
    second timer's [setCount((prevCount) => prevCount + 1)]. *)
Definition step (i : instance) (e : event) : list output * instance :=
  match e with
  | Click => if mounted i then ([], set_count (count i + 1) i) else ([], i)
  | TickLog =>
      match log_interval i with
      | Some captured => (log_callback captured, i)
      | None => ([], i)
      end
  | TickInc => if inc_interval i then ([], set_count (count i + 1) i) else ([], i)
  | Unmount =>
      if mounted i then
        ([], {| count := count i; log_deps := log_deps i; log_interval := None;
                inc_deps := inc_deps i; inc_interval := false; mounted := false |})
      else ([], i)
  end.

Fixpoint run (i : instance) (evs : list event) : list output * instance :=
  match evs with
  | [] => ([], i)
  | e :: evs' =>
      let (out, i') := step i e in
      let (outs, i'') := run i' evs' in
      (out ++ outs, i'')
  end.

End CorrectedStaleClosure.

(** What [RaceConditionComponent] and its corrected version render:
    [if (loading) return <div>Loading user...</div>;
     if (!user) return <div>No user found.</div>;
     return <div>User: {user.name}</div>;] *)

Module UserView.

Inductive view : Type :=
| LoadingUser
| NoUserFound
| User (name : value).

(** [!v] is false for the values that count as true. *)
Definition truthy (v : value) : bool :=
  match v with
  | VUndefined | VNull => false
  | VBool b => b
  | VNum n => negb (n =? 0)%Z
  | VStr s => negb (String.eqb s "")
  | VObj _ | VFun _ => true
  end.

Definition render (h : gmap loc (gmap string value)) (loading : bool) (user : value)
  : view :=
  if loading then LoadingUser
  else if truthy user then User (get_field h user "name")
  else NoUserFound.

End UserView.

(** Sessions of the corrected fetch component: the component, and for each
    request the [userId] of the effect that started it. *)

Module CorrectedSession.
Import Fetch.

Record session : Type :=
  Session { component : CorrectedRaceConditionComponent.instance;
            started : list Z }.

Definition mount (userId : Z) : list output * session :=
  let (out, i) := CorrectedRaceConditionComponent.mount userId in
  (out, {| component := i; started := [userId] |}).

Definition step (h : gmap loc (gmap string value)) (s : session) (e : event)
  : list output * session :=
  let i := component s in
  match e with
  | SetUserId id =>
      if React.effect_due (CorrectedRaceConditionComponent.effect_deps i)
                          (CorrectedRaceConditionComponent.deps id)
      then
        let (out, i') := CorrectedRaceConditionComponent.set_userId id i in
        (out, {| component := i'; started := started s ++ [id] |})
      else ([], s)
  | Resolve k data =>
      match CorrectedRaceConditionComponent.requests i !! k with
      | Some {| state := Pending |} =>
          ([], {| component :=
                    CorrectedRaceConditionComponent.on_data data
                      (CorrectedRaceConditionComponent.with_requests
                         (settle k (CorrectedRaceConditionComponent.requests i)) i);
                  started := started s |})
      | _ => ([], s)
      end
  | Reject k error =>
      match CorrectedRaceConditionComponent.requests i !! k, started s !! k with
      | Some {| state := Settled |}, _ | None, _ | _, None => ([], s)
      | Some _, Some id =>
          let (out, i') :=
            CorrectedRaceConditionComponent.on_error h id error
              (CorrectedRaceConditionComponent.with_requests
                 (settle k (CorrectedRaceConditionComponent.requests i)) i) in
          (out, {| component := i'; started := started s |})
      end
  end.

Fixpoint run (h : gmap loc (gmap string value)) (s : session) (evs : list event)
  : list output * session :=
  match evs with
  | [] => ([], s)
  | e :: evs' =>
      let (out, s') := step h s e in
      let (outs, s'') := run h s' evs' in
      (out ++ outs, s'')
  end.

End CorrectedSession.

(** ** Relations and invariants the proofs go through *)

(** The relation kept between the two components: the text in the DOM node
    that the ref points to is the text in the controlled state. *)
Definition same_text (c : ControlledComponent.state) (u : UncontrolledComponent.state) : Prop :=
  UncontrolledComponent.inputRef u
  = Some {| UncontrolledComponent.value := ControlledComponent.value c |}.

(** After a render the memo cell holds props shallow-equal to the ones just
    passed; for [Parent] it holds a [name] equal to the state's. *)
Definition cell_in_step (i : Parent.instance) : Prop :=
  exists n, Parent.child i = Some {[ "name" := VStr n ]}
            /\ n = Parent.name (Parent.state i).

(** What holds of every state of the component: the effect was committed
    with the empty array, and the timer, if set, closed over 0. *)
Definition stale_inv (i : staleClosureComponent.instance) : Prop :=
  staleClosureComponent.effect_deps i = Some staleClosureComponent.deps
  /\ (staleClosureComponent.interval i = Some 0%Z
      \/ staleClosureComponent.interval i = None).

(** What holds of every state of [RaceConditionComponent]: the last run of
    the effect returned no cleanup and was committed for the current
    [userId]; no request carries a signal and none is aborted. *)
Definition race_inv (i : RaceConditionComponent.instance) : Prop :=
  RaceConditionComponent.cleanup i = None
  /\ RaceConditionComponent.effect_deps i
     = Some (RaceConditionComponent.deps (RaceConditionComponent.userId i))
  /\ Forall (λ r, Fetch.signal r = None /\ Fetch.state r <> Fetch.Aborted)
            (RaceConditionComponent.requests i).

(** The memo cells of the walkthrough's [App] after a render: the constant
    text, and the dynamic text of the current [parentCount]. *)
Definition example_cells (i : MemoExample.instance) : Prop :=
  MemoExample.constant_child i = Some {[ "text" := VStr "Hello Memo!" ]}
  /\ MemoExample.dynamic_child i
     = Some {[ "text" := VStr ("Dynamic Memo Text: "
                               +:+ pretty (MemoExample.parentCount (MemoExample.state i))) ]}.

(** What holds of [ParentComponent] of the pitfall example after a render:
    the functions handed to the buttons were allocated below the next free
    address, and the second button holds the memoized function, computed for
    and closed over the current count. *)
Definition buttons_inv (i : MyButtonExample.instance) : Prop :=
  exists p f,
    MyButtonExample.problem_button i = Some {[ "onClick" := VFun p ]}
    /\ MyButtonExample.solution_button i
       = Some {[ "onClick" := VFun (MyButtonExample.address f) ]}
    /\ MyButtonExample.memoized i = Some ([VNum (MyButtonExample.count i)], f)
    /\ MyButtonExample.captured f = MyButtonExample.count i
    /\ (p < MyButtonExample.next_address i)%positive
    /\ (MyButtonExample.address f < MyButtonExample.next_address i)%positive.

(** What holds of the window in every state of the resize example: the
    listeners were allocated below the next free address and are pairwise
    different, and a mounted component listens and shows the window's
    width. *)
Definition resize_inv (w : ResizeListener.world) : Prop :=
  Forall (λ l, (l < ResizeListener.next_address w)%positive) (ResizeListener.listeners w)
  /\ NoDup (ResizeListener.listeners w)
  /\ match ResizeListener.component w with
     | Some m =>
         ResizeListener.handleResize m ∈ ResizeListener.listeners w
         /\ ResizeListener.width m = ResizeListener.innerWidth w
     | None => True
     end.

(** With the cleanup, the mounted component's listener is the only one. *)
Definition cleanup_inv (w : ResizeListener.world) : Prop :=
  match ResizeListener.component w with
  | Some m =>
      ResizeListener.listeners w = [ResizeListener.handleResize m]
      /\ ResizeListener.cleanup m = Some (ResizeListener.handleResize m)
      /\ ResizeListener.width m = ResizeListener.innerWidth w
  | None => ResizeListener.listeners w = []
  end.

(** What holds of [OverOptimizedComponent] after a render: [logCount] was
    made for, and closed over, the current count, the effect was committed
    for it, and it was allocated below the next free address. *)
Definition logCount_inv (i : OverOptimizedComponent.instance) : Prop :=
  exists f,
    OverOptimizedComponent.logCount i = Some ([VNum (OverOptimizedComponent.count i)], f)
    /\ OverOptimizedComponent.captured f = OverOptimizedComponent.count i
    /\ OverOptimizedComponent.effect_deps i
       = Some [VFun (OverOptimizedComponent.address f)]
    /\ (OverOptimizedComponent.address f < OverOptimizedComponent.next_address i)%positive.

(** What holds of the BAD [UserProfile] between updates: its state is the
    name derived from the props of the last commit. *)
Definition profile_inv (i : UserProfile.instance) : Prop :=
  UserProfile.effect_deps i = None /\ UserProfile.fullName i = ""
  \/ exists f l, UserProfile.effect_deps i = Some [VStr f; VStr l]
                 /\ UserProfile.fullName i = UserProfile.derived f l.


(** What holds of the write-up's [CorrectedStaleClosure] while it is mounted:
    both effects are committed, the first for the current count, and the
    first timer's callback closed over the current count. *)
Definition fresh_interval (i : CorrectedStaleClosure.instance) : Prop :=
  CorrectedStaleClosure.mounted i = true
  /\ CorrectedStaleClosure.log_deps i = Some [VNum (CorrectedStaleClosure.count i)]
  /\ CorrectedStaleClosure.log_interval i = Some (CorrectedStaleClosure.count i)
  /\ CorrectedStaleClosure.inc_deps i = Some []
  /\ CorrectedStaleClosure.inc_interval i = true.

(** What holds of every session of the corrected fetch component: the effect
    was committed for the current [userId]; the cleanup aborts the signal of
    the request started last; every request started before it is no longer
    pending. *)
Definition one_in_flight (s : CorrectedSession.session) : Prop :=
  let i := CorrectedSession.component s in
  CorrectedRaceConditionComponent.effect_deps i
  = Some (CorrectedRaceConditionComponent.deps (CorrectedRaceConditionComponent.userId i))
  /\ exists earlier latest sg,
       CorrectedRaceConditionComponent.requests i = earlier ++ [latest]
       /\ Fetch.signal latest = Some sg
       /\ CorrectedRaceConditionComponent.cleanup i = Some sg
       /\ Forall (λ r, Fetch.state r <> Fetch.Pending) earlier.

(** * Properties *)

Section JSFacts.

Lemma strict_eq_spec (a b : value) : strict_eq a b = true ↔ a = b.
Proof.
  destruct a, b; simpl; try (split; [discriminate | congruence]);
    try (split; congruence).
  - rewrite Bool.eqb_true_iff. split; congruence.
  - rewrite Z.eqb_eq. split; congruence.
  - rewrite String.eqb_eq. split; congruence.
  - rewrite Pos.eqb_eq. split; congruence.
  - rewrite Pos.eqb_eq. split; congruence.
Qed.

Lemma strict_eq_refl (a : value) : strict_eq a a = true.
Proof. by apply strict_eq_spec. Qed.

Lemma strict_eq_false (a b : value) : strict_eq a b = false ↔ a ≠ b.
Proof.
  rewrite <- strict_eq_spec. destruct (strict_eq a b); split; congruence.
Qed.

End JSFacts.

(** ** The theme context *)

Section ThemeFacts.
Import ThemeContext.

Lemma toggleTheme_light : toggleTheme (VStr "light") = VStr "dark".
Proof. reflexivity. Qed.

Lemma toggleTheme_dark : toggleTheme (VStr "dark") = VStr "light".
Proof. reflexivity. Qed.

(** The invariant of the provider's state. *)
Lemma reachable_light_or_dark (th : value) :
  reachable th -> th = VStr "light" \/ th = VStr "dark".
Proof.
  induction 1 as [|th _ [-> | ->]].
  - by left.
  - right. apply toggleTheme_light.
  - left. apply toggleTheme_dark.
Qed.

Lemma reachable_dark : reachable (VStr "dark").
Proof. exact (reachable_toggle _ reachable_initial). Qed.

(** Outside the two themes the updater is not an involution: a number is
    sent to "light" and does not come back. *)
Lemma toggleTheme_twice_elsewhere :
  toggleTheme (toggleTheme (VNum 0)) = VStr "dark".
Proof. reflexivity. Qed.

(** Below a provider the button's handler is the provider's closure, and [n]
    clicks leave a provider holding the theme toggled [n] times. *)
Lemma clicks_toggle (n : nat) (p : provider) :
  exists q, Nat.iter n click {| enclosing := Some p |} = {| enclosing := Some q |}
            /\ theme q = Nat.iter n toggleTheme (theme p).
Proof.
  induction n as [|n [q [Hq Hth]]]; simpl.
  - by exists p.
  - rewrite Hq. eexists. split; [reflexivity|]. simpl. by rewrite Hth.
Qed.

Lemma iter_toggle_reachable (n : nat) : reachable (Nat.iter n toggleTheme initialTheme).
Proof. induction n; simpl; by constructor. Qed.

(** C5 (as stated, refuted): the state the provider starts from is the string
    "light"; [typeof] says "string", not "boolean", and the toggle makes it
    the string "dark". *)
Lemma theme_state_not_boolean :
  typeof (theme mount_provider) = "string"
  /\ typeof (theme mount_provider) <> "boolean"
  /\ toggleTheme (theme mount_provider) = VStr "dark".
Proof. repeat split. discriminate. Qed.

(** C5 (amended): the theme state is a toggled two-valued string flag: every
    theme the provider can hold is of type string, it is "light" or "dark",
    and the toggle sends it to the other one of the two. *)
Theorem theme_is_string_flag (th : value) (H : reachable th) :
  typeof th = "string"
  /\ (th = VStr "light" \/ th = VStr "dark")
  /\ (th = VStr "light" -> toggleTheme th = VStr "dark")
  /\ (th = VStr "dark" -> toggleTheme th = VStr "light")
  /\ toggleTheme th <> th.
Proof.
  destruct (reachable_light_or_dark th H) as [-> | ->];
    repeat split; auto; discriminate.
Qed.

Lemma theme_is_string_flag_witness :
  reachable (VStr "dark")
  /\ typeof (VStr "dark") = "string"
  /\ toggleTheme (VStr "dark") <> VStr "dark".
Proof.
  split; [exact reachable_dark|].
  pose proof (theme_is_string_flag (VStr "dark") reachable_dark) as (Ht & _ & _ & _ & Hne).
  split; [exact Ht | exact Hne].
Defined.

(** C8: the theme starts as "light", is always one of "light" and "dark",
    [toggleTheme] exchanges the two, and toggling twice from a reachable
    state gives the theme back. *)
Theorem theme_toggle_involution (th : value) (H : reachable th) :
  initialTheme = VStr "light"
  /\ (th = VStr "light" \/ th = VStr "dark")
  /\ toggleTheme (VStr "light") = VStr "dark"
  /\ toggleTheme (VStr "dark") = VStr "light"
  /\ toggleTheme (toggleTheme th) = th.
Proof.
  repeat split.
  - by apply reachable_light_or_dark.
  - by destruct (reachable_light_or_dark th H) as [-> | ->].
Qed.

Lemma theme_toggle_involution_witness :
  reachable (VStr "dark")
  /\ toggleTheme (toggleTheme (VStr "dark")) = VStr "dark".
Proof.
  split; [exact reachable_dark|].
  exact (proj2 (proj2 (proj2 (proj2
    (theme_toggle_involution (VStr "dark") reachable_dark))))).
Defined.

(** C9: the default context value has the one field [theme = "light"] and no
    [toggleTheme]; a [ThemeButton] that is not below a [ThemeProvider] reads
    [undefined] for [toggleTheme], gets [undefined] as its click handler, and
    a click on it changes nothing. *)
Theorem default_context_has_no_toggle :
  dom defaultValue = {[ "theme" ]}
  /\ defaultValue !! "theme" = Some (VStr "light")
  /\ defaultValue !! "toggleTheme" = None
  /\ context_of bare = defaultValue
  /\ get (context_of bare) "toggleTheme" = VUndefined
  /\ onClick (ThemeButton (context_of bare)) = VUndefined
  /\ click bare = bare.
Proof.
  unfold defaultValue. rewrite dom_singleton_L. repeat split.
Qed.

(** Below the provider of App.jsx the handler is a function and a click
    changes the theme. *)
Lemma provider_click_toggles :
  typeof (onClick (ThemeButton (context_of App))) = "function"
  /\ theme <$> enclosing (click App) = Some (VStr "dark").
Proof. split; reflexivity. Qed.

End ThemeFacts.

(** ** Controlled and uncontrolled form *)

Section FormFacts.
Import Form.

Lemma same_text_mount :
  same_text ControlledComponent.init
            (UncontrolledComponent.mount UncontrolledComponent.init).
Proof. reflexivity. Qed.

(** Each event keeps the relation and produces the same output. *)
Lemma same_text_step c u e :
  same_text c u ->
  exists u', UncontrolledComponent.step u e
             = Some ((ControlledComponent.step c e).1, u')
             /\ same_text (ControlledComponent.step c e).2 u'.
Proof.
  unfold same_text. intros H. destruct e as [text|]; simpl.
  - eexists. split; [reflexivity|]. simpl. by rewrite H.
  - unfold UncontrolledComponent.handleSubmit. rewrite H. simpl.
    eexists. split; [reflexivity|]. done.
Qed.

Lemma same_text_run evs : forall c u,
  same_text c u ->
  UncontrolledComponent.run u evs = Some (ControlledComponent.run c evs).
Proof.
  induction evs as [|e evs IH]; intros c u H; simpl; [done|].
  destruct (same_text_step c u e H) as (u' & -> & H').
  destruct (ControlledComponent.step c e) as [out c'] eqn:E. simpl in *.
  by rewrite (IH c' u' H').
Qed.

(** Typing never alerts, and leaves the last text typed in the state. *)
Lemma controlled_run_typing history : forall c typed rest,
  ControlledComponent.run c (map Typing history ++ Typing typed :: rest)
  = ControlledComponent.run {| ControlledComponent.value := typed |} rest.
Proof.
  induction history as [|t history IH]; intros c typed rest; simpl; [done|].
  apply IH.
Qed.

(** C1: whatever was typed before, once [typed] is in the field a submit
    alerts "A name was submitted" followed by [typed], in the controlled and
    in the uncontrolled component; and over any sequence of edits and
    submits the two components alert the same messages. *)
Theorem controlled_uncontrolled_same_alert
    (history : list string) (typed : string) (evs : list event) :
  let session := map Typing history ++ [Typing typed; Submit] in
  let mounted := UncontrolledComponent.mount UncontrolledComponent.init in
  ControlledComponent.run ControlledComponent.init session
  = [Alert ("A name was submitted" +:+ typed)]
  /\ UncontrolledComponent.run mounted session
     = Some [Alert ("A name was submitted" +:+ typed)]
  /\ UncontrolledComponent.run mounted evs
     = Some (ControlledComponent.run ControlledComponent.init evs).
Proof.
  intros session mounted.
  assert (Hc : ControlledComponent.run ControlledComponent.init session
               = [Alert ("A name was submitted" +:+ typed)]).
  { unfold session. by rewrite controlled_run_typing. }
  split; [exact Hc|]. split.
  - rewrite <- Hc. apply same_text_run, same_text_mount.
  - apply same_text_run, same_text_mount.
Qed.

(** Before the node is attached the ref is [null] and the handler throws. *)
Lemma uncontrolled_submit_before_mount :
  UncontrolledComponent.handleSubmit UncontrolledComponent.init = None.
Proof. reflexivity. Qed.

End FormFacts.

(** ** Shallow comparison and the memoized child *)

Section MemoFacts.

Lemma object_is_spec (a b : value) : object_is a b = true <-> a = b.
Proof. apply strict_eq_spec. Qed.

(** Field by field: the same fields, each holding [Object.is]-equal values. *)
Lemma shallowEqual_spec (a b : gmap string value) :
  React.shallowEqual a b = true <->
  dom a = dom b
  /\ forall k x y, a !! k = Some x -> b !! k = Some y -> object_is x y = true.
Proof.
  unfold React.shallowEqual.
  rewrite andb_true_iff, bool_decide_eq_true, forallb_forall. split.
  - intros [Hsz Hall].
    assert (Hsub : forall k x, a !! k = Some x ->
                     exists y, b !! k = Some y /\ object_is x y = true).
    { intros k x Hk. specialize (Hall (k, x)). simpl in Hall.
      destruct (b !! k) as [y|].
      - exists y. split; [done|]. apply Hall.
        by apply list_elem_of_In, elem_of_map_to_list.
      - exfalso. apply diff_false_true, Hall.
        by apply list_elem_of_In, elem_of_map_to_list. }
    split.
    + apply set_subseteq_size_eq.
      * intros k [x Hx]%elem_of_dom. destruct (Hsub k x Hx) as (y & Hy & _).
        apply elem_of_dom. by exists y.
      * rewrite !size_dom. lia.
    + intros k x y Hx Hy. destruct (Hsub k x Hx) as (y' & Hy' & Hxy). congruence.
  - intros [Hdom Hf]. split.
    + by rewrite <- !(size_dom (D := gset string)), Hdom.
    + intros [k x] Hin%list_elem_of_In%elem_of_map_to_list. simpl.
      assert (Hk : k ∈ dom b) by (rewrite <- Hdom; apply elem_of_dom; eauto).
      apply elem_of_dom in Hk as [y Hy]. rewrite Hy. by apply (Hf k).
Qed.

Lemma shallowEqual_refl (a : gmap string value) : React.shallowEqual a a = true.
Proof.
  apply shallowEqual_spec. split; [done|].
  intros k x y Hx Hy. apply object_is_spec. congruence.
Qed.

Lemma shallowEqual_singleton (k : string) (x y : value) :
  React.shallowEqual {[ k := x ]} {[ k := y ]} = object_is x y.
Proof.
  destruct (object_is x y) eqn:E.
  - apply shallowEqual_spec. split; [by rewrite !dom_singleton_L|].
    intros k' x' y' [_ <-]%lookup_singleton_Some [_ <-]%lookup_singleton_Some.
    exact E.
  - apply not_true_is_false. intros [_ H]%shallowEqual_spec.
    rewrite (H k x y) in E; [done| |]; apply lookup_singleton_eq.
Qed.

Lemma memo_skip body (p q : gmap string value) :
  React.shallowEqual p q = true -> React.memo body (Some p) q = ([], Some p).
Proof. intros H. unfold React.memo. by rewrite H. Qed.

Lemma memo_rerender body (p q : gmap string value) :
  React.shallowEqual p q = false -> React.memo body (Some p) q = (body q, Some q).
Proof. intros H. unfold React.memo. by rewrite H. Qed.

Lemma child_props_shallowEqual (h h' : Parent.hooks) :
  React.shallowEqual (Parent.child_props h) (Parent.child_props h') = true
  <-> Parent.name h = Parent.name h'.
Proof.
  unfold Parent.child_props. rewrite shallowEqual_singleton, object_is_spec.
  split; congruence.
Qed.

Lemma step_child_log (i : Parent.instance) (e : Parent.event) :
  cell_in_step i ->
  cell_in_step (Parent.step i e).2
  /\ count_occ output_eq_dec (Parent.step i e).1 MemoizedChild.rendered
     = if decide (Parent.name (Parent.handler e (Parent.state i))
                  = Parent.name (Parent.state i)) then 0 else 1.
Proof.
  intros (n & Hc & ->). unfold Parent.step.
  destruct (Parent.changed _ _) eqn:Hch.
  - unfold Parent.render, MemoizedChild.render. rewrite Hc.
    unfold React.memo, Parent.child_props.
    rewrite shallowEqual_singleton.
    destruct (object_is _ _) eqn:E; simpl.
    + apply object_is_spec in E. injection E as E.
      rewrite decide_True by done. split; [|done].
      eexists. split; [reflexivity|]. simpl. done.
    + rewrite decide_False.
      * split; [|done]. eexists. split; reflexivity.
      * intros Heq. rewrite Heq in E. by rewrite strict_eq_refl in E.
  - simpl. split; [by eexists|].
    unfold Parent.changed, React.state_changed in Hch.
    apply orb_false_elim in Hch as [_ Hn].
    apply negb_false_iff, object_is_spec in Hn. injection Hn as Hn.
    by rewrite decide_True.
Qed.

Lemma step_name (i : Parent.instance) (e : Parent.event) :
  Parent.name (Parent.state (Parent.step i e).2)
  = Parent.name (Parent.handler e (Parent.state i)).
Proof.
  unfold Parent.step. destruct (Parent.changed _ _) eqn:Hch.
  - by destruct (Parent.render _ _).
  - simpl. unfold Parent.changed, React.state_changed in Hch.
    apply orb_false_elim in Hch as [_ Hn].
    apply negb_false_iff, object_is_spec in Hn. by injection Hn.
Qed.

Lemma child_renders_from (evs : list Parent.event) : forall i,
  cell_in_step i ->
  count_occ output_eq_dec (Parent.run i evs).1 MemoizedChild.rendered
  = if decide (Parent.name (Parent.state i) = "Satyam") then 0
    else if existsb (λ e, bool_decide (e = Parent.ClickName)) evs then 1 else 0.
Proof.
  induction evs as [|e evs IH]; intros i Hi; simpl.
  - by case_decide.
  - destruct (step_child_log i e Hi) as [Hi' Hcount].
    pose proof (step_name i e) as Hname.
    destruct (Parent.step i e) as [out i'] eqn:Es. simpl in Hi', Hcount, Hname.
    specialize (IH i' Hi').
    destruct (Parent.run i' evs) as [outs i''] eqn:Er. simpl in *.
    rewrite count_occ_app, Hcount, IH, Hname.
    destruct e; simpl.
    + rewrite (decide_True (P := Parent.name (Parent.state i) = Parent.name (Parent.state i))) by done.
      done.
    + destruct (decide (Parent.name (Parent.state i) = "Satyam")) as [Hd | Hd].
      * by rewrite decide_True.
      * by rewrite decide_False.
Qed.

(** X4: Over a whole session the body of the memoized child runs once at mount
    and once more when the name is first changed, however often the count
    button is clicked. *)
Lemma child_renders_in_session (evs : list Parent.event) :
  count_occ output_eq_dec
    (Parent.mount.1 ++ (Parent.run Parent.mount.2 evs).1) MemoizedChild.rendered
  = if existsb (λ e, bool_decide (e = Parent.ClickName)) evs then 2 else 1.
Proof.
  rewrite count_occ_app, child_renders_from.
  - simpl. by destruct (existsb _ evs).
  - eexists. split; reflexivity.
Qed.

(** C2: in a render of [Parent] that follows one with hooks [prev], the props
    handed to the memoized child are shallow-equal to the previous ones
    exactly when the name is the same; then the child's body is not run (its
    log is absent from what the render writes), and when the comparison
    fails the body is run. *)
Theorem memoized_child_rerender (prev next : Parent.hooks) :
  let before := Parent.child_props prev in
  let after := Parent.child_props next in
  let out := (Parent.render next (Some before)).1 in
  (React.shallowEqual before after = true <-> Parent.name prev = Parent.name next)
  /\ (React.shallowEqual before after = true ->
      ~ In MemoizedChild.rendered out /\ out = [Parent.rendered])
  /\ (React.shallowEqual before after = false ->
      In MemoizedChild.rendered out /\ out = [Parent.rendered; MemoizedChild.rendered]).
Proof.
  intros before after out. split; [apply child_props_shallowEqual|].
  unfold out, Parent.render, MemoizedChild.render. split; intros H.
  - rewrite (memo_skip _ _ _ H). simpl. split; [|done].
    intros [E | []]. discriminate E.
  - rewrite (memo_rerender _ _ _ H). simpl. split; [|done]. right. by left.
Qed.

Lemma memoized_child_rerender_witness :
  let prev := Parent.init in
  let same := Parent.handler Parent.ClickCount prev in
  let other := Parent.handler Parent.ClickName prev in
  (React.shallowEqual (Parent.child_props prev) (Parent.child_props same) = true
   /\ ~ In MemoizedChild.rendered (Parent.render same (Some (Parent.child_props prev))).1)
  /\ (React.shallowEqual (Parent.child_props prev) (Parent.child_props other) = false
      /\ In MemoizedChild.rendered (Parent.render other (Some (Parent.child_props prev))).1).
Proof.
  intros prev same other.
  assert (Hs : React.shallowEqual (Parent.child_props prev) (Parent.child_props same) = true)
    by (vm_compute; reflexivity).
  assert (Ho : React.shallowEqual (Parent.child_props prev) (Parent.child_props other) = false)
    by (vm_compute; reflexivity).
  split.
  - split; [exact Hs|].
    exact (proj1 (proj1 (proj2 (memoized_child_rerender prev same)) Hs)).
  - split; [exact Ho|].
    exact (proj1 (proj2 (proj2 (memoized_child_rerender prev other)) Ho)).
Defined.

(** C7: the comparison goes field by field (the same fields, each pair of
    values [Object.is]-equal); primitive values are equal when they are the
    same value, object and array references when they are the same address;
    the heap is never read, so props that point to two addresses holding
    identical contents compare as changed. *)
Theorem shallow_comparison_by_reference_or_value :
  (forall a b : gmap string value,
      React.shallowEqual a b = true <->
      dom a = dom b
      /\ forall k x y, a !! k = Some x -> b !! k = Some y -> object_is x y = true)
  /\ (forall x y : value,
        is_primitive x = true -> is_primitive y = true ->
        (object_is x y = true <-> x = y))
  /\ (forall l l' : loc, object_is (VObj l) (VObj l') = true <-> l = l')
  /\ (forall (h : gmap loc (gmap string value)) (k : string) (l l' : loc)
             (contents : gmap string value),
        l <> l' -> h !! l = Some contents -> h !! l' = Some contents ->
        React.shallowEqual {[ k := VObj l ]} {[ k := VObj l' ]} = false).
Proof.
  split; [exact shallowEqual_spec|].
  split; [intros x y _ _; apply object_is_spec|].
  split.
  - intros l l'. rewrite object_is_spec. split; congruence.
  - intros h k l l' contents Hne _ _. rewrite shallowEqual_singleton.
    apply strict_eq_false. congruence.
Qed.

Lemma shallow_comparison_by_reference_or_value_witness :
  let contents : gmap string value := {[ "age" := VNum 30 ]} in
  let h : gmap loc (gmap string value) :=
    <[ 1%positive := contents ]> {[ 2%positive := contents ]} in
  h !! 1%positive = Some contents
  /\ h !! 2%positive = Some contents
  /\ React.shallowEqual {[ "user" := VObj 1%positive ]} {[ "user" := VObj 2%positive ]} = false
  /\ (object_is (VStr "hello") (VStr "hello") = true <-> VStr "hello" = VStr "hello").
Proof.
  intros contents h.
  assert (H1 : h !! 1%positive = Some contents) by reflexivity.
  assert (H2 : h !! 2%positive = Some contents) by reflexivity.
  destruct shallow_comparison_by_reference_or_value as (_ & Hprim & _ & Href).
  split; [exact H1|]. split; [exact H2|]. split.
  - apply (Href h "user" 1%positive 2%positive contents); [discriminate | exact H1 | exact H2].
  - apply Hprim; reflexivity.
Defined.

End MemoFacts.

(** ** Edge cases of [useEffect] *)

Section InfiniteLoopFacts.
Import infiniteLoop.

(** The effect is due whenever the committed dependency differs from the
    current count; it is, at mount and after every run of the effect. *)
Lemma effect_due_after_increment (c : Z) :
  React.effect_due (Some (deps c)) (deps (c + 1)) = true.
Proof.
  unfold React.effect_due, deps. simpl.
  replace (c =? c + 1)%Z with false; [done|].
  symmetry. apply Z.eqb_neq. lia.
Qed.

Lemma add_one_exact (c : Z) :
  (- JSNumber.two53 <= c < JSNumber.two53)%Z -> JSNumber.add c 1 = (c + 1)%Z.
Proof.
  unfold JSNumber.add, JSNumber.round, JSNumber.two53. intros H.
  replace (Z.abs (c + 1) <=? 9007199254740992)%Z with true; [done|].
  symmetry. apply Z.leb_le. lia.
Qed.

(** At 2^53 the sum 2^53 + 1 lies half way between two numbers and goes to
    the even one, 2^53 itself. *)
Lemma add_one_saturates : JSNumber.add JSNumber.two53 1 = JSNumber.two53.
Proof. reflexivity. Qed.

Lemma pass_runs_effect (i : instance) :
  React.effect_due (effect_deps i) (deps (count i)) = true ->
  (- JSNumber.two53 <= count i < JSNumber.two53)%Z ->
  pass i = ([ConsoleLog [VStr "Effect ran, count:"; VNum (count i)]],
            {| count := count i + 1; effect_deps := Some (deps (count i));
               scheduled := true |}).
Proof.
  intros H Hc. unfold pass, effect. rewrite H, (add_one_exact _ Hc). repeat f_equal.
  unfold React.state_changed. simpl.
  replace (count i =? count i + 1)%Z with false; [done|].
  symmetry. apply Z.eqb_neq. lia.
Qed.

Lemma pass_at_limit (i : instance) :
  React.effect_due (effect_deps i) (deps (count i)) = true ->
  count i = JSNumber.two53 ->
  pass i = ([ConsoleLog [VStr "Effect ran, count:"; VNum JSNumber.two53]],
            {| count := JSNumber.two53; effect_deps := Some (deps JSNumber.two53);
               scheduled := false |}).
Proof.
  intros H Hc. unfold pass, effect. rewrite H, Hc, add_one_saturates. reflexivity.
Qed.

Lemma run_at_rest (n : nat) (i : instance) :
  scheduled i = false -> run n i = ([], i).
Proof. intros H. destruct n; simpl; [done|]. by rewrite H. Qed.

Lemma run_keeps_going (n : nat) : forall i : instance,
  scheduled i = true ->
  React.effect_due (effect_deps i) (deps (count i)) = true ->
  (- JSNumber.two53 <= count i)%Z ->
  (count i + Z.of_nat n <= JSNumber.two53)%Z ->
  let r := run n i in
  scheduled r.2 = true
  /\ React.effect_due (effect_deps r.2) (deps (count r.2)) = true
  /\ count r.2 = (count i + Z.of_nat n)%Z
  /\ r.1 = map (λ k, ConsoleLog [VStr "Effect ran, count:";
                                 VNum (count i + Z.of_nat k)]) (seq 0 n).
Proof.
  induction n as [|n IH]; intros i Hs Hd Hlo Hhi.
  - simpl. repeat split; try done. lia.
  - cbn [run]. rewrite Hs, (pass_runs_effect i Hd) by lia.
    set (i' := {| count := count i + 1; effect_deps := Some (deps (count i));
                  scheduled := true |}).
    assert (Hi' : count i' = (count i + 1)%Z) by reflexivity.
    destruct (IH i' eq_refl (effect_due_after_increment (count i)))
      as (Hs' & Hd' & Hc' & Ho'); [rewrite Hi'; lia | rewrite Hi'; lia |].
    destruct (run n i') as [outs i''] eqn:Er. cbn [fst snd] in *.
    repeat split; try done.
    + rewrite Hc', Hi'. lia.
    + rewrite Ho', Hi'. cbn [seq map app]. f_equal.
      * by rewrite Z.add_0_r.
      * rewrite <- seq_shift, map_map. apply map_ext. intros k.
        do 4 f_equal. lia.
Qed.

Lemma run_settles (n : nat) : forall (i : instance) (k : nat),
  scheduled i = true ->
  React.effect_due (effect_deps i) (deps (count i)) = true ->
  (- JSNumber.two53 <= count i)%Z ->
  (count i + Z.of_nat n)%Z = JSNumber.two53 ->
  let r := run (S n + k) i in
  scheduled r.2 = false /\ count r.2 = JSNumber.two53 /\ length r.1 = S n.
Proof.
  induction n as [|n IH]; intros i k Hs Hd Hlo Hhi.
  - cbn [run Nat.add]. rewrite Hs, (pass_at_limit i Hd) by lia.
    rewrite run_at_rest by done. by repeat split.
  - change (S (S n) + k) with (S (S n + k)). cbn [run].
    rewrite Hs, (pass_runs_effect i Hd) by lia.
    set (i' := {| count := count i + 1; effect_deps := Some (deps (count i));
                  scheduled := true |}).
    assert (Hi' : count i' = (count i + 1)%Z) by reflexivity.
    destruct (IH i' k eq_refl (effect_due_after_increment (count i)))
      as (Hs' & Hc' & Hl'); [rewrite Hi'; lia | rewrite Hi'; lia |].
    destruct (run (S n + k) i') as [outs i'']. cbn [fst snd] in *.
    repeat split; try done. simpl. by rewrite Hl'.
Qed.

(** C3 (as stated, refuted): started from 2^53 the effect hands 2^53 + 1 to
    [setCount], which is 2^53 again: the state does not change, no render is
    scheduled, and after its one run the effect never runs again. *)
Lemma infiniteLoop_settles_at_2p53 :
  let c := 9007199254740992%Z in
  (effect c).1 = c
  /\ (effect c).1 <> (c + 1)%Z
  /\ scheduled (run 1 (mount_with c)).2 = false
  /\ run 4 (mount_with c) = run 1 (mount_with c)
  /\ (run 4 (mount_with c)).1 = [ConsoleLog [VStr "Effect ran, count:"; VNum c]].
Proof. repeat split. discriminate. Qed.

(** C3 (amended): each run of the effect hands [count + 1] to [setCount], and
    [count] is in the effect's own dependency array, so below 2^53 the
    effect is due again for the new count: from a starting count [c] between
    -2^53 and 2^53, after [n] passes that take the count no further than
    2^53 another pass is scheduled and due, the count is [c + n], and the
    effect has run [n] times, once for each of [c], [c + 1], ...  At 2^53
    the sum is 2^53 again and the cycle comes to rest: one more pass, and
    nothing is scheduled whatever fuel is left. *)
Theorem infiniteLoop_retriggers_below_2p53 (c : Z) (n : nat) :
  (- JSNumber.two53 <= c)%Z ->
  (c + Z.of_nat n <= JSNumber.two53)%Z ->
  let r := run n (mount_with c) in
  In (VNum c) (deps c)
  /\ (c < JSNumber.two53 ->
      (effect c).1 = (c + 1)%Z
      /\ React.effect_due (Some (deps c)) (deps (effect c).1) = true)%Z
  /\ scheduled r.2 = true
  /\ React.effect_due (effect_deps r.2) (deps (count r.2)) = true
  /\ count r.2 = (c + Z.of_nat n)%Z
  /\ r.1 = map (λ k, ConsoleLog [VStr "Effect ran, count:";
                                 VNum (c + Z.of_nat k)]) (seq 0 n)
  /\ ((c + Z.of_nat n)%Z = JSNumber.two53 ->
      forall k, let r' := run (S n + k) (mount_with c) in
                scheduled r'.2 = false /\ count r'.2 = JSNumber.two53
                /\ length r'.1 = S n).
Proof.
  intros Hlo Hhi r. split; [by left|]. split.
  - intros Hc. unfold effect. cbn [fst]. rewrite add_one_exact by lia.
    split; [done | apply effect_due_after_increment].
  - destruct (run_keeps_going n (mount_with c) eq_refl eq_refl Hlo Hhi)
      as (H1 & H2 & H3 & H4).
    repeat split; try done.
    + by apply (run_settles n (mount_with c) k).
    + by apply (run_settles n (mount_with c) k).
    + by apply (run_settles n (mount_with c) k).
Qed.

Lemma infiniteLoop_retriggers_below_2p53_witness :
  (- JSNumber.two53 <= 0)%Z
  /\ (0 + Z.of_nat 3 <= JSNumber.two53)%Z
  /\ scheduled (run 3 (mount_with 0)).2 = true
  /\ count (run 3 (mount_with 0)).2 = 3%Z
  /\ (effect 0).1 = 1%Z.
Proof.
  assert (Hlo : (- JSNumber.two53 <= 0)%Z) by (vm_compute; discriminate).
  assert (Hhi : (0 + Z.of_nat 3 <= JSNumber.two53)%Z) by (vm_compute; discriminate).
  assert (Hc : (0 < JSNumber.two53)%Z) by reflexivity.
  destruct (infiniteLoop_retriggers_below_2p53 0 3 Hlo Hhi)
    as (_ & He & Hs & _ & Hn & _).
  split; [exact Hlo|]. split; [exact Hhi|]. split; [exact Hs|].
  split; [exact Hn | exact (proj1 (He Hc))].
Defined.

(** The component as written starts from 0. *)
Lemma infiniteLoop_first_passes :
  (run 3 mount).1
  = [ConsoleLog [VStr "Effect ran, count:"; VNum 0];
     ConsoleLog [VStr "Effect ran, count:"; VNum 1];
     ConsoleLog [VStr "Effect ran, count:"; VNum 2]]
  /\ scheduled (run 3 mount).2 = true.
Proof. split; reflexivity. Qed.

(** With an empty dependency array the same cycle settles after one pass. *)
Lemma settles_when_not_due (i : instance) :
  React.effect_due (effect_deps i) (deps (count i)) = false ->
  scheduled (pass i).2 = false.
Proof. intros H. unfold pass. by rewrite H. Qed.

End InfiniteLoopFacts.

Section StaleClosureFacts.
Import staleClosureComponent.

Lemma stale_inv_mount : stale_inv mount.
Proof. split; [reflexivity | by left]. Qed.

Lemma stale_inv_step (i : instance) (e : event) :
  stale_inv i -> stale_inv (step i e).2.
Proof.
  intros H. pose proof H as [Hd Hi]. destruct e; simpl.
  - destruct (mounted i); simpl; [|exact H]. unfold onClick.
    destruct (React.state_changed _ _); [|exact H].
    unfold commit. simpl. rewrite Hd. simpl. by split.
  - destruct (interval i); simpl; exact H.
  - destruct (mounted i); simpl; [|exact H]. split; [done | by right].
Qed.

Lemma stale_step_output (i : instance) (e : event) :
  stale_inv i ->
  Forall (λ o, o = ConsoleLog [VStr "Count is"; VNum 0]) (step i e).1.
Proof.
  intros [_ Hi]. destruct e; simpl.
  - by destruct (mounted i).
  - destruct Hi as [-> | ->]; simpl; [|done]. by repeat constructor.
  - by destruct (mounted i).
Qed.

Lemma stale_run_output (evs : list event) : forall i,
  stale_inv i ->
  Forall (λ o, o = ConsoleLog [VStr "Count is"; VNum 0]) (run i evs).1.
Proof.
  induction evs as [|e evs IH]; intros i Hi; simpl; [done|].
  pose proof (stale_step_output i e Hi) as Ho.
  pose proof (stale_inv_step i e Hi) as Hi'.
  destruct (step i e) as [out i']. simpl in *.
  specialize (IH i' Hi'). destruct (run i' evs) as [outs i'']. simpl in *.
  by apply Forall_app.
Qed.

(** While the component stays mounted every tick logs and every click adds
    one to the state. *)
Lemma stale_run_counts (evs : list event) : forall i,
  ~ In Unmount evs -> mounted i = true -> interval i = Some 0%Z ->
  effect_deps i = Some deps ->
  length (run i evs).1 = count_occ event_eq_dec evs Tick
  /\ count (run i evs).2 = (count i + Z.of_nat (count_occ event_eq_dec evs Click))%Z.
Proof.
  induction evs as [|e evs IH]; intros i Hn Hm Hi Hd.
  - simpl. split; [done | lia].
  - assert (Hn' : ~ In Unmount evs) by (intros H; apply Hn; by right).
    cbn [run]. destruct e.
    + simpl. rewrite Hm. unfold onClick.
      replace (React.state_changed (VNum (count i)) (VNum (count i + 1))) with true.
      2:{ unfold React.state_changed. simpl. symmetry. apply negb_true_iff, Z.eqb_neq. lia. }
      unfold commit. cbn [effect_deps]. rewrite Hd. cbn [React.effect_due React.areHookInputsEqual deps negb].
      set (i' := {| count := _ |}).
      destruct (IH i' Hn' eq_refl Hi eq_refl) as [Hl Hc].
      destruct (run i' evs) as [outs i'']. simpl in *. split; [done|]. lia.
    + simpl. rewrite Hi.
      destruct (IH i Hn' Hm Hi Hd) as [Hl Hc].
      destruct (run i evs) as [outs i'']. simpl in *. split; [by rewrite Hl | lia].
    + exfalso. apply Hn. by left.
Qed.

(** C10: for every sequence of clicks on Increment, ticks of the timer (and
    an unmount), every line the interval callback writes is "Count is" 0;
    while the component is mounted each tick writes one such line although
    the state has become the number of clicks. *)
Theorem stale_interval_logs_zero (evs : list event) :
  let r := run mount evs in
  Forall (λ o, o = ConsoleLog [VStr "Count is"; VNum 0]) r.1
  /\ (~ In Unmount evs ->
      length r.1 = count_occ event_eq_dec evs Tick
      /\ count r.2 = Z.of_nat (count_occ event_eq_dec evs Click)).
Proof.
  intros r. split.
  - apply stale_run_output, stale_inv_mount.
  - intros Hn. by apply (stale_run_counts evs mount Hn).
Qed.

Lemma stale_interval_logs_zero_witness :
  let evs := [Click; Tick; Click; Click; Tick] in
  ~ In Unmount evs
  /\ (run mount evs).1 = [ConsoleLog [VStr "Count is"; VNum 0];
                          ConsoleLog [VStr "Count is"; VNum 0]]
  /\ length (run mount evs).1 = 2
  /\ count (run mount evs).2 = 3%Z.
Proof.
  intros evs.
  assert (Hn : ~ In Unmount evs).
  { intros [H | [H | [H | [H | [H | []]]]]]; discriminate H. }
  split; [exact Hn|]. split; [reflexivity|].
  exact (proj2 (stale_interval_logs_zero evs) Hn).
Defined.

End StaleClosureFacts.

(** ** The fetch keyed by [userId] *)

Section RaceConditionFacts.
Import Fetch.

Lemma race_effect_returns_nothing (u : Z) (j : RaceConditionComponent.instance) :
  RaceConditionComponent.cleanup (RaceConditionComponent.effect u j).2 = None
  /\ RaceConditionComponent.requests (RaceConditionComponent.effect u j).2
     = RaceConditionComponent.requests j
       ++ [{| url := "/api/users/" +:+ pretty u; signal := None; state := Pending |}].
Proof. split; reflexivity. Qed.

Lemma race_inv_effect (u : Z) (j : RaceConditionComponent.instance) :
  Forall (λ r, signal r = None /\ state r <> Aborted) (RaceConditionComponent.requests j) ->
  race_inv (RaceConditionComponent.effect u j).2.
Proof.
  intros H. repeat split; simpl.
  apply Forall_app. split; [exact H|]. by repeat constructor.
Qed.

Lemma race_inv_mount (u : Z) : race_inv (RaceConditionComponent.mount u).2.
Proof. apply race_inv_effect. constructor. Qed.

Lemma settle_keeps (k : nat) (reqs : list request) :
  Forall (λ r, signal r = None /\ state r <> Aborted) reqs ->
  Forall (λ r, signal r = None /\ state r <> Aborted) (settle k reqs).
Proof.
  intros H. apply Forall_alter; [exact H|].
  intros r _ [Hs _]. by split.
Qed.

Lemma race_inv_step (i : RaceConditionComponent.instance) (e : event) :
  race_inv i -> race_inv (RaceConditionComponent.step i e).2.
Proof.
  intros H. pose proof H as (Hc & Hd & Hr). destruct e as [id | k data | k error]; simpl.
  - destruct (React.effect_due _ _); [|exact H].
    apply race_inv_effect. unfold RaceConditionComponent.run_cleanup. by rewrite Hc.
  - destruct (RaceConditionComponent.requests i !! k) as [[u sg []]|] eqn:E; simpl; try exact H.
    repeat split; simpl; try done. by apply settle_keeps.
  - destruct (RaceConditionComponent.requests i !! k) as [[u sg []]|] eqn:E; simpl; try exact H.
    all: repeat split; simpl; try done; by apply settle_keeps.
Qed.

Lemma race_inv_run (evs : list event) : forall i,
  race_inv i -> race_inv (RaceConditionComponent.run i evs).2.
Proof.
  induction evs as [|e evs IH]; intros i H; simpl; [exact H|].
  pose proof (race_inv_step i e H) as H'.
  destruct (RaceConditionComponent.step i e) as [out i']. simpl in H'.
  specialize (IH i' H'). by destruct (RaceConditionComponent.run i' evs).
Qed.

(** A change of [userId] starts one more request and touches no other. *)
Lemma race_set_userId (i : RaceConditionComponent.instance) (id : Z) :
  race_inv i ->
  let i' := (RaceConditionComponent.step i (SetUserId id)).2 in
  (id <> RaceConditionComponent.userId i ->
   RaceConditionComponent.requests i'
   = RaceConditionComponent.requests i
     ++ [{| url := "/api/users/" +:+ pretty id; signal := None; state := Pending |}])
  /\ (forall k r, RaceConditionComponent.requests i !! k = Some r ->
                  RaceConditionComponent.requests i' !! k = Some r).
Proof.
  intros (Hc & Hd & Hr) i'. unfold i'. simpl. rewrite Hd.
  unfold RaceConditionComponent.run_cleanup. rewrite Hc. split.
  - intros Hne. unfold React.effect_due, RaceConditionComponent.deps. simpl.
    replace (RaceConditionComponent.userId i =? id)%Z with false; [done|].
    symmetry. apply Z.eqb_neq. congruence.
  - intros k r Hk. destruct (React.effect_due _ _); [|exact Hk]. simpl.
    rewrite lookup_app_l; [exact Hk|]. by apply lookup_lt_Some with r.
Qed.

(** C6: the effect of [RaceConditionComponent] returns no cleanup and hands
    no signal to [fetch]; in every state the component can reach no request
    carries a signal and none is aborted, and a change of [userId] adds one
    pending request and leaves every request started before as it was, the
    pending ones pending. *)
Theorem race_condition_no_cancellation (id0 : Z) (evs : list event) (id : Z) :
  let i := (RaceConditionComponent.run (RaceConditionComponent.mount id0).2 evs).2 in
  let i' := (RaceConditionComponent.step i (SetUserId id)).2 in
  (forall u j, RaceConditionComponent.cleanup (RaceConditionComponent.effect u j).2 = None)
  /\ (forall u j, RaceConditionComponent.requests (RaceConditionComponent.effect u j).2
                  = RaceConditionComponent.requests j
                    ++ [{| url := "/api/users/" +:+ pretty u; signal := None;
                           state := Pending |}])
  /\ RaceConditionComponent.cleanup i = None
  /\ Forall (λ r, signal r = None /\ state r <> Aborted) (RaceConditionComponent.requests i')
  /\ (id <> RaceConditionComponent.userId i ->
      RaceConditionComponent.requests i'
      = RaceConditionComponent.requests i
        ++ [{| url := "/api/users/" +:+ pretty id; signal := None; state := Pending |}])
  /\ (forall k r, RaceConditionComponent.requests i !! k = Some r ->
                  RaceConditionComponent.requests i' !! k = Some r).
Proof.
  intros i i'.
  assert (Hi : race_inv i) by apply race_inv_run, race_inv_mount.
  assert (Hi' : race_inv i') by apply race_inv_step, Hi.
  split; [intros u j; apply race_effect_returns_nothing|].
  split; [intros u j; apply race_effect_returns_nothing|].
  split; [apply Hi|]. split; [apply Hi'|].
  exact (race_set_userId i id Hi).
Qed.

Lemma race_condition_no_cancellation_witness :
  let i := (RaceConditionComponent.mount 1).2 in
  let i' := (RaceConditionComponent.step i (SetUserId 2)).2 in
  2%Z <> RaceConditionComponent.userId i
  /\ RaceConditionComponent.requests i !! 0%nat
     = Some {| url := "/api/users/1"; signal := None; state := Pending |}
  /\ RaceConditionComponent.requests i' !! 0%nat
     = Some {| url := "/api/users/1"; signal := None; state := Pending |}
  /\ RaceConditionComponent.requests i'
     = RaceConditionComponent.requests i
       ++ [{| url := "/api/users/" +:+ pretty 2%Z; signal := None; state := Pending |}].
Proof.
  intros i i'.
  assert (Hne : 2%Z <> RaceConditionComponent.userId i) by discriminate.
  assert (H0 : RaceConditionComponent.requests i !! 0%nat
               = Some {| url := "/api/users/1"; signal := None; state := Pending |})
    by reflexivity.
  pose proof (race_condition_no_cancellation 1 [] 2) as (_ & _ & _ & _ & Happ & Hkeep).
  split; [exact Hne|]. split; [exact H0|]. split.
  - exact (Hkeep 0%nat _ H0).
  - exact (Happ Hne).
Defined.

(** The hazard the example is about: with requests for users 1 and 2 in
    flight, the answer for user 1 arriving last is the one displayed. *)
Lemma race_stale_response :
  let i := (RaceConditionComponent.run (RaceConditionComponent.mount 1).2
              [SetUserId 2; Resolve 1 (VStr "user 2"); Resolve 0 (VStr "user 1")]).2 in
  RaceConditionComponent.userId i = 2%Z
  /\ RaceConditionComponent.user i = VStr "user 1"
  /\ RaceConditionComponent.loading i = false.
Proof. repeat split. Qed.

(** The corrected component does cancel: its cleanup aborts the request of
    the previous [userId]. *)
Lemma corrected_aborts_previous_request :
  let i := (CorrectedRaceConditionComponent.mount 1).2 in
  let i' := (CorrectedRaceConditionComponent.set_userId 2 i).2 in
  state <$> CorrectedRaceConditionComponent.requests i !! 0%nat = Some Pending
  /\ state <$> CorrectedRaceConditionComponent.requests i' !! 0%nat = Some Aborted
  /\ state <$> CorrectedRaceConditionComponent.requests i' !! 1%nat = Some Pending.
Proof. repeat split. Qed.

(** C4 (as stated, refuted): in [RaceConditionComponent] the handler runs the
    same statements, and leaves the same state, for a rejection whose error
    is an AbortError and for one whose error is a TypeError. *)
Lemma catch_handler_same_branch :
  let h : gmap loc (gmap string value) :=
    <[ 1%positive := {[ "name" := VStr "AbortError" ]} ]>
      {[ 2%positive := {[ "name" := VStr "TypeError" ]} ]} in
  let i := (RaceConditionComponent.mount 1).2 in
  get_field h (VObj 1%positive) "name" = VStr "AbortError"
  /\ get_field h (VObj 2%positive) "name" = VStr "TypeError"
  /\ (RaceConditionComponent.on_error (VObj 1%positive) i).1
     = [ConsoleError [VStr "Fetch error:"; VObj 1%positive]]
  /\ (RaceConditionComponent.on_error (VObj 2%positive) i).1
     = [ConsoleError [VStr "Fetch error:"; VObj 2%positive]]
  /\ map statement (RaceConditionComponent.on_error (VObj 1%positive) i).1
     = map statement (RaceConditionComponent.on_error (VObj 2%positive) i).1
  /\ (RaceConditionComponent.on_error (VObj 1%positive) i).2
     = (RaceConditionComponent.on_error (VObj 2%positive) i).2.
Proof. repeat split. Qed.

Lemma member_of_get_field (h : gmap loc (gmap string value)) (v : value)
    (k s : string) :
  get_field h v k = VStr s -> JSObject.member h v k = Some (VStr s).
Proof.
  destruct v; simpl; try discriminate.
  destruct (h !! l); simpl; [congruence | discriminate].
Qed.

(** C4 (amended): the handler of [RaceConditionComponent] takes one branch
    for every rejection: it writes "Fetch error:" and the error with
    [console.error] and sets [loading] to false.  The corrected component of
    the write-up is the one that tells the two apart: when [error.name] is
    "AbortError" it logs "Fetch aborted for user:" and the user id, when it
    is anything else it writes "Fetch error:" and the error, and when the
    error is [null] or [undefined], so that reading [error.name] throws, it
    writes nothing; in every case [finally] sets [loading] to false. *)
Theorem catch_handler_branches
    (h : gmap loc (gmap string value)) (uid : Z) (error : value)
    (i : RaceConditionComponent.instance) (j : CorrectedRaceConditionComponent.instance) :
  (RaceConditionComponent.on_error error i).1 = [ConsoleError [VStr "Fetch error:"; error]]
  /\ RaceConditionComponent.loading (RaceConditionComponent.on_error error i).2 = false
  /\ (JSObject.member h error "name" = Some (VStr "AbortError") ->
      CorrectedRaceConditionComponent.catch_block h uid error
      = Some [ConsoleLog [VStr "Fetch aborted for user:"; VNum uid]]
      /\ (CorrectedRaceConditionComponent.on_error h uid error j).1
         = [ConsoleLog [VStr "Fetch aborted for user:"; VNum uid]])
  /\ (forall name, JSObject.member h error "name" = Some name ->
                   name <> VStr "AbortError" ->
      CorrectedRaceConditionComponent.catch_block h uid error
      = Some [ConsoleError [VStr "Fetch error:"; error]]
      /\ (CorrectedRaceConditionComponent.on_error h uid error j).1
         = [ConsoleError [VStr "Fetch error:"; error]])
  /\ (error = VNull \/ error = VUndefined ->
      CorrectedRaceConditionComponent.catch_block h uid error = None
      /\ (CorrectedRaceConditionComponent.on_error h uid error j).1 = [])
  /\ CorrectedRaceConditionComponent.loading
       (CorrectedRaceConditionComponent.on_error h uid error j).2 = false.
Proof.
  split; [done|]. split; [done|].
  unfold CorrectedRaceConditionComponent.on_error,
    CorrectedRaceConditionComponent.catch_block. cbn [fst snd].
  split; [|split; [|split; [|done]]].
  - intros ->. by rewrite strict_eq_refl.
  - intros name -> Hne. apply strict_eq_false in Hne. by rewrite Hne.
  - by intros [-> | ->].
Qed.

Lemma catch_handler_branches_witness :
  let h : gmap loc (gmap string value) :=
    <[ 1%positive := {[ "name" := VStr "AbortError" ]} ]>
      {[ 2%positive := {[ "name" := VStr "TypeError" ]} ]} in
  let j := (CorrectedRaceConditionComponent.mount 1).2 in
  (JSObject.member h (VObj 1%positive) "name" = Some (VStr "AbortError")
   /\ (CorrectedRaceConditionComponent.on_error h 1 (VObj 1%positive) j).1
      = [ConsoleLog [VStr "Fetch aborted for user:"; VNum 1]])
  /\ (JSObject.member h (VObj 2%positive) "name" = Some (VStr "TypeError")
      /\ VStr "TypeError" <> VStr "AbortError"
      /\ (CorrectedRaceConditionComponent.on_error h 1 (VObj 2%positive) j).1
         = [ConsoleError [VStr "Fetch error:"; VObj 2%positive]])
  /\ (CorrectedRaceConditionComponent.catch_block h 1 VNull = None
      /\ (CorrectedRaceConditionComponent.on_error h 1 VNull j).1 = []).
Proof.
  intros h j.
  assert (H1 : JSObject.member h (VObj 1%positive) "name" = Some (VStr "AbortError"))
    by reflexivity.
  assert (H2 : JSObject.member h (VObj 2%positive) "name" = Some (VStr "TypeError"))
    by reflexivity.
  assert (Hne : VStr "TypeError" <> VStr "AbortError") by discriminate.
  split; [|split].
  - split; [exact H1|].
    exact (proj2 (proj1 (proj2 (proj2
      (catch_handler_branches h 1 (VObj 1%positive) (RaceConditionComponent.mount 1).2 j))) H1)).
  - split; [exact H2|]. split; [exact Hne|].
    exact (proj2 (proj1 (proj2 (proj2 (proj2
      (catch_handler_branches h 1 (VObj 2%positive) (RaceConditionComponent.mount 1).2 j))))
      _ H2 Hne)).
  - exact (proj1 (proj2 (proj2 (proj2 (proj2
      (catch_handler_branches h 1 VNull (RaceConditionComponent.mount 1).2 j)))))
      (or_introl eq_refl)).
Defined.

End RaceConditionFacts.

(** * Further properties of the components *)

(** ** Forms *)

Section FormSessionFacts.
Import Form FormSession.

(** X1: Lifting the state to [ParentComponent] changes nothing a user sees: over
    every sequence of edits and submits, parent and child together alert
    what [ControlledComponent] alerts. *)
Theorem lifted_state_same_alerts (evs : list event) :
  ParentComponent.run ParentComponent.init evs
  = ControlledComponent.run ControlledComponent.init evs.
Proof.
  assert (H : forall s, ParentComponent.run
                          {| ParentComponent.inputValue := s |} evs
                        = ControlledComponent.run
                            {| ControlledComponent.value := s |} evs).
  { induction evs as [|[text|] evs IH]; intros s; simpl; [done| |].
    - apply IH.
    - f_equal. apply IH. }
  apply H.
Qed.

Lemma controlled_final_app st evs evs' : final st (evs ++ evs') = final (final st evs) evs'.
Proof. unfold final. apply fold_left_app. Qed.

Lemma controlled_run_app evs : forall st evs',
  ControlledComponent.run st (evs ++ evs')
  = ControlledComponent.run st evs ++ ControlledComponent.run (final st evs) evs'.
Proof.
  induction evs as [|e evs IH]; intros st evs'; simpl; [done|].
  destruct (ControlledComponent.step st e) as [out st'] eqn:E.
  by rewrite IH, <- app_assoc.
Qed.

Lemma controlled_final_value evs : forall st,
  ControlledComponent.value (final st evs)
  = default (ControlledComponent.value st) (last (typed evs)).
Proof.
  induction evs as [|[text|] evs IH]; intros st; [done| |].
  - change (final st (Typing text :: evs))
      with (final {| ControlledComponent.value := text |} evs).
    rewrite IH. simpl. change (typed (Typing text :: evs)) with (text :: typed evs).
    rewrite last_cons. by destruct (last (typed evs)).
  - change (final st (Submit :: evs)) with (final st evs). by rewrite IH.
Qed.

Lemma controlled_run_length evs : forall st,
  length (ControlledComponent.run st evs) = count_occ event_eq_dec evs Submit.
Proof.
  induction evs as [|[t|] evs IH]; intros st; simpl; [done| |].
  - apply IH.
  - f_equal. apply IH.
Qed.

(** X2: The controlled field keeps its text: after any sequence of edits and
    submits the state is the text typed last (empty if nothing was typed),
    and a submit alerts exactly that text, and does so again when repeated,
    because the form submission is prevented from loading the page afresh. *)
Theorem controlled_field_keeps_text (evs : list event) :
  let text := default "" (last (typed evs)) in
  ControlledComponent.value (final ControlledComponent.init evs) = text
  /\ ControlledComponent.input_text (final ControlledComponent.init evs) = text
  /\ ControlledComponent.run ControlledComponent.init (evs ++ [Submit; Submit])
     = ControlledComponent.run ControlledComponent.init evs
       ++ [Alert ("A name was submitted" +:+ text);
           Alert ("A name was submitted" +:+ text)]
  /\ length (ControlledComponent.run ControlledComponent.init evs)
     = count_occ event_eq_dec evs Submit.
Proof.
  intros text.
  assert (Hv : ControlledComponent.value (final ControlledComponent.init evs) = text)
    by apply controlled_final_value.
  split; [exact Hv|]. split; [exact Hv|]. split.
  - rewrite controlled_run_app. simpl. by rewrite Hv.
  - apply controlled_run_length.
Qed.

(** Before the input node is attached the ref is [null]: editing does
    nothing, and the session fails exactly when it contains a submit. *)
Lemma uncontrolled_fails_on_null_ref (evs : list event) :
  UncontrolledComponent.run UncontrolledComponent.init evs = None
  <-> In Submit evs.
Proof.
  induction evs as [|[text|] evs IH]; simpl.
  - split; [discriminate | intros []].
  - change ({| UncontrolledComponent.inputRef := _ |}) with UncontrolledComponent.init.
    destruct (UncontrolledComponent.run UncontrolledComponent.init evs) eqn:E.
    + split; [discriminate|]. intros [H | H]; [discriminate H|].
      by apply IH in H.
    + split; [|done]. intros _. right. by apply IH.
  - split; [|done]. intros _. by left.
Qed.

End FormSessionFacts.

(** ** Theme consumers *)

Section ThemeConsumerFacts.
Import ThemeContext.

Lemma iter_toggle_parity (n : nat) :
  Nat.iter n toggleTheme initialTheme
  = if Nat.even n then VStr "light" else VStr "dark".
Proof.
  induction n as [|n IH]; [done|].
  rewrite Nat.even_succ, <- Nat.negb_even. simpl. rewrite IH.
  by destruct (Nat.even n).
Qed.

Lemma clicks_bare (n : nat) : Nat.iter n click bare = bare.
Proof. induction n as [|n IH]; simpl; [done|]. by rewrite IH. Qed.

(** X3: Below the provider of App.jsx the class the sibling components render
    follows the clicks on [ThemeButton]: "light" after an even number of
    clicks, "dark" after an odd number.  Without a provider no number of
    clicks changes the tree, and the class stays "light". *)
Theorem sibling_class_follows_clicks (n : nat) :
  Sibling_className (context_of (Nat.iter n click App))
  = (if Nat.even n then "light" else "dark")
  /\ Nat.iter n click bare = bare
  /\ Sibling_className (context_of (Nat.iter n click bare)) = "light".
Proof.
  split; [|split; [apply clicks_bare | by rewrite clicks_bare]].
  destruct (clicks_toggle n mount_provider) as (q & Hq & Hth).
  change {| enclosing := Some mount_provider |} with App in Hq.
  rewrite Hq. unfold context_of, React.useContext. simpl.
  unfold Sibling_className, provider_value, get.
  rewrite lookup_insert_eq. simpl. rewrite Hth.
  change (theme mount_provider) with initialTheme.
  rewrite iter_toggle_parity. by destruct (Nat.even n).
Qed.

End ThemeConsumerFacts.

(** ** The stale interval after unmount *)

Section StaleUnmountFacts.
Import staleClosureComponent.

Lemma unmounted_is_silent (evs : list event) : forall i,
  mounted i = false -> interval i = None -> run i evs = ([], i).
Proof.
  induction evs as [|e evs IH]; intros i Hm Hi; simpl; [done|].
  destruct e; simpl; rewrite ?Hm, ?Hi; by rewrite (IH i Hm Hi).
Qed.

Lemma stale_run_app (evs : list event) : forall i evs',
  run i (evs ++ evs')
  = ((run i evs).1 ++ (run (run i evs).2 evs').1, (run (run i evs).2 evs').2).
Proof.
  induction evs as [|e evs IH]; intros i evs'; simpl.
  - by destruct (run i evs').
  - destruct (step i e) as [out i']. rewrite IH.
    destruct (run i' evs) as [outs i'']. simpl.
    by rewrite app_assoc.
Qed.

(** A component that was mounted is mounted until the first unmount, and
    keeps its timer. *)
Lemma stays_mounted (evs : list event) : forall i,
  ~ In Unmount evs -> mounted i = true -> effect_deps i = Some deps ->
  mounted (run i evs).2 = true /\ effect_deps (run i evs).2 = Some deps.
Proof.
  induction evs as [|e evs IH]; intros i Hn Hm Hd; simpl; [done|].
  assert (Hn' : ~ In Unmount evs) by (intros H; apply Hn; by right).
  destruct e.
  - simpl. rewrite Hm. unfold onClick.
    destruct (React.state_changed _ _).
    + unfold commit. simpl. rewrite Hd. simpl.
      set (i' := {| count := _ |}).
      destruct (IH i' Hn' eq_refl eq_refl) as [H1 H2].
      by destruct (run i' evs).
    + destruct (IH i Hn' Hm Hd) as [H1 H2]. by destruct (run i evs).
  - simpl. destruct (IH i Hn' Hm Hd) as [H1 H2].
    destruct (interval i); by destruct (run i evs).
  - exfalso. apply Hn. by left.
Qed.

(** X13: The cleanup works: once the component is unmounted the timer is gone;
    whatever happens afterwards writes nothing and changes nothing. *)
Theorem unmount_clears_interval (before after : list event) :
  ~ In Unmount before ->
  let r := run mount before in
  let r' := run mount (before ++ Unmount :: after) in
  r'.1 = r.1
  /\ interval r'.2 = None
  /\ mounted r'.2 = false
  /\ count r'.2 = count r.2.
Proof.
  intros Hn r r'. unfold r'. rewrite stale_run_app. fold r.
  destruct (stays_mounted before mount Hn eq_refl eq_refl) as [Hm Hd]. fold r in Hm, Hd.
  cbn [run step]. rewrite Hm. cbn [cleanup interval mounted count effect_deps].
  set (i' := {| count := count r.2 |}).
  rewrite (unmounted_is_silent after i' eq_refl eq_refl). simpl.
  by rewrite app_nil_r.
Qed.

Lemma unmount_clears_interval_witness :
  let before := [Click; Tick] in
  let after := [Tick; Click; Tick] in
  ~ In Unmount before
  /\ (run mount (before ++ Unmount :: after)).1 = [ConsoleLog [VStr "Count is"; VNum 0]]
  /\ count (run mount (before ++ Unmount :: after)).2 = 1%Z.
Proof.
  intros before after.
  assert (Hn : ~ In Unmount before).
  { intros [H | [H | []]]; discriminate H. }
  split; [exact Hn|].
  destruct (unmount_clears_interval before after Hn) as (Ho & _ & _ & Hc).
  split; [exact Ho | exact Hc].
Defined.

End StaleUnmountFacts.

(** ** The walkthrough's examples of [memo] *)

Section MemoExampleFacts.
Import MemoExample.

Lemma dynamic_text_changes (a b : Z) :
  object_is (VStr ("Dynamic Memo Text: " +:+ pretty a))
            (VStr ("Dynamic Memo Text: " +:+ pretty b)) = bool_decide (a = b).
Proof.
  case_bool_decide as H.
  - subst. apply strict_eq_refl.
  - apply strict_eq_false. intros [= E]. apply H.
    by apply (inj pretty).
Qed.

Lemma example_step (i : instance) (e : event) :
  example_cells i ->
  example_cells (step i e).2
  /\ (step i e).1
     = app_rendering :: without_memo_rendering
       :: match e with
          | IncrementParent => [memoized_rendering]
          | UpdateOther => []
          end.
Proof.
  intros [Hc Hd]. unfold step.
  assert (Hch : changed (state i) (handler e (state i)) = true).
  { unfold changed, React.state_changed. apply orb_true_iff.
    destruct e; [left | right]; simpl; apply negb_true_iff, Z.eqb_neq; lia. }
  rewrite Hch. unfold render, MemoizedChildComponent. rewrite Hc, Hd.
  unfold React.memo. rewrite shallowEqual_refl, shallowEqual_singleton, dynamic_text_changes.
  destruct e; simpl.
  - rewrite bool_decide_eq_false_2 by lia. simpl. by split.
  - rewrite bool_decide_eq_true_2 by done. simpl. by split.
Qed.

Lemma example_run (evs : list event) : forall i,
  example_cells i ->
  count_occ output_eq_dec (run i evs).1 app_rendering = length evs
  /\ count_occ output_eq_dec (run i evs).1 without_memo_rendering = length evs
  /\ count_occ output_eq_dec (run i evs).1 memoized_rendering
     = count_occ event_eq_dec evs IncrementParent.
Proof.
  induction evs as [|e evs IH]; intros i Hi; [done|].
  destruct (example_step i e Hi) as [Hi' Hout]. cbn [run].
  destruct (step i e) as [out i']. cbn [fst snd] in *.
  destruct (IH i' Hi') as (H1 & H2 & H3).
  destruct (run i' evs) as [outs i'']. cbn [fst snd] in *.
  rewrite !count_occ_app, H1, H2, H3, Hout. by destruct e.
Qed.

(** X5: In the walkthrough's [App], over every sequence of clicks on its two
    buttons: [App] and the child without [memo] render once at mount and
    once per click; the memoized children render once each at mount, and
    afterwards only the one with the dynamic text does, once per click on
    "Increment Parent Count"; a click on the other button renders neither. *)
Theorem memo_example_render_counts (evs : list event) :
  let out := mount.1 ++ (run mount.2 evs).1 in
  count_occ output_eq_dec out app_rendering = S (length evs)
  /\ count_occ output_eq_dec out without_memo_rendering = S (length evs)
  /\ count_occ output_eq_dec out memoized_rendering
     = 2 + count_occ event_eq_dec evs IncrementParent.
Proof.
  intros out. unfold out. rewrite !count_occ_app.
  destruct (example_run evs mount.2) as (H1 & H2 & H3); [by split|].
  rewrite H1, H2, H3. by repeat split.
Qed.

End MemoExampleFacts.

Section MyButtonFacts.
Import MyButtonExample.

Lemma buttons_inv_mount : buttons_inv mount.2.
Proof.
  exists 1%positive, {| address := 2%positive; captured := 0 |}.
  repeat split.
Qed.

(** A render that finds the count it was last rendered with: only the first
    button renders. *)
Lemma render_same_count (i : instance) :
  buttons_inv i ->
  (render i).1 = [rendered] /\ buttons_inv (render i).2
  /\ count (render i).2 = count i.
Proof.
  intros (p & f & Hp & Hs & Hm & Hc & Hlt & Hflt).
  unfold render, useMemo. rewrite Hm. cbn [React.areHookInputsEqual].
  rewrite strict_eq_refl. cbn [andb address].
  unfold MyButton, React.memo. rewrite Hp, Hs, !shallowEqual_singleton.
  rewrite strict_eq_refl.
  replace (object_is (VFun p) (VFun (next_address i))) with false.
  2:{ symmetry. apply strict_eq_false. intros [= E]. lia. }
  cbn [fst snd app]. split; [done|]. split; [|done].
  exists (next_address i), f. cbn. repeat split; try done; lia.
Qed.

(** A render after the count changed: both buttons render. *)
Lemma render_new_count (i : instance) (c : Z) :
  buttons_inv i -> c <> count i ->
  let i' := {| count := c; next_address := next_address i;
               memoized := memoized i; problem_button := problem_button i;
               solution_button := solution_button i |} in
  (render i').1 = [rendered; rendered] /\ buttons_inv (render i').2
  /\ count (render i').2 = c.
Proof.
  intros (p & f & Hp & Hs & Hm & Hc & Hlt & Hflt) Hne i'.
  unfold render, useMemo, i'. cbn [memoized count next_address problem_button solution_button].
  rewrite Hm. cbn [React.areHookInputsEqual object_is strict_eq].
  replace (count i =? c)%Z with false by (symmetry; apply Z.eqb_neq; congruence).
  cbn [andb address].
  unfold MyButton, React.memo. rewrite Hp, Hs, !shallowEqual_singleton.
  replace (object_is (VFun p) (VFun (next_address i))) with false.
  2:{ symmetry. apply strict_eq_false. intros [= E]. lia. }
  replace (object_is (VFun (address f)) (VFun (Pos.succ (next_address i)))) with false.
  2:{ symmetry. apply strict_eq_false. intros [= E]. lia. }
  cbn [fst snd app]. split; [done|]. split; [|done].
  exists (next_address i), {| address := Pos.succ (next_address i); captured := c |}.
  cbn. repeat split; try done; lia.
Qed.

Lemma buttons_step (i : instance) (e : event) :
  buttons_inv i ->
  buttons_inv (step i e).2
  /\ (step i e).1 = match e with
                    | Rerender => [rendered]
                    | _ => [rendered; rendered]
                    end
  /\ count (step i e).2 = match e with
                          | Rerender => count i
                          | _ => (count i + 1)%Z
                          end.
Proof.
  intros Hi. pose proof Hi as (p & f & Hp & Hs & Hm & Hc & Hlt & Hflt).
  assert (Hclick : forall j, j = set_count (count i) i ->
            buttons_inv j.2 /\ j.1 = [rendered; rendered]
            /\ count j.2 = (count i + 1)%Z).
  { intros j ->. unfold set_count.
    replace (React.state_changed (VNum (count i)) (VNum (count i + 1))) with true.
    2:{ symmetry. apply negb_true_iff, Z.eqb_neq. lia. }
    destruct (render_new_count i (count i + 1) Hi) as (H1 & H2 & H3); [lia|].
    by repeat split. }
  destruct e; cbn [step].
  - by apply Hclick.
  - rewrite Hm, Hc. by apply Hclick.
  - destruct (render_same_count i Hi) as (H1 & H2 & H3). by repeat split.
Qed.

Lemma buttons_run (evs : list event) : forall i,
  buttons_inv i ->
  count_occ output_eq_dec (run i evs).1 rendered
  = 2 * (count_occ event_eq_dec evs ClickProblem
         + count_occ event_eq_dec evs ClickSolution)
    + count_occ event_eq_dec evs Rerender.
Proof.
  induction evs as [|e evs IH]; intros i Hi; [done|].
  destruct (buttons_step i e Hi) as (Hi' & Hout & _). cbn [run].
  destruct (step i e) as [out i']. cbn [fst snd] in *.
  specialize (IH i' Hi'). destruct (run i' evs) as [outs i'']. cbn [fst snd] in *.
  rewrite count_occ_app, IH, Hout. destruct e; simpl; lia.
Qed.

(** X6: In the pitfall example, every render of [ParentComponent] that finds the
    count unchanged renders the first [MyButton] (its handler is a new
    function each time) and skips the second (its handler comes from
    [useMemo]); a click on either button changes the count, and then both
    render.  Over a session the buttons render twice at mount, twice per
    click and once per render without a change. *)
Theorem memoized_handler_skips_rerender (evs : list event) :
  let i := (run mount.2 evs).2 in
  (step i Rerender).1 = [rendered]
  /\ (step i ClickProblem).1 = [rendered; rendered]
  /\ (step i ClickSolution).1 = [rendered; rendered]
  /\ count_occ output_eq_dec (mount.1 ++ (run mount.2 evs).1) rendered
     = 2 + 2 * (count_occ event_eq_dec evs ClickProblem
                + count_occ event_eq_dec evs ClickSolution)
       + count_occ event_eq_dec evs Rerender.
Proof.
  intros i.
  assert (Hi : buttons_inv i).
  { unfold i. generalize buttons_inv_mount. generalize mount.2.
    induction evs as [|e evs IH]; intros j Hj; [done|]. cbn [run].
    destruct (buttons_step j e Hj) as (Hj' & _).
    destruct (step j e) as [out j']. specialize (IH j' Hj').
    by destruct (run j' evs). }
  split; [apply (buttons_step i Rerender Hi)|].
  split; [apply (buttons_step i ClickProblem Hi)|].
  split; [apply (buttons_step i ClickSolution Hi)|].
  rewrite count_occ_app, (buttons_run evs mount.2 buttons_inv_mount).
  reflexivity.
Qed.

End MyButtonFacts.

Section CustomComparisonFacts.
Import MyComplexComponent.

Lemma member_None h v k : member h v k = None <-> is_nullish v = true.
Proof. destruct v; simpl; split; congruence. Qed.

Lemma field_strict_eq_refl (f : field) : f <> NaN -> strict_eq f f = true.
Proof. destruct f; [intros _; apply strict_eq_refl | done]. Qed.

Lemma arePropsEqual_None h (p q : gmap string value) :
  arePropsEqual h p q = None
  <-> is_nullish (get p "user") = true \/ is_nullish (get q "user") = true.
Proof.
  unfold arePropsEqual.
  destruct (member h (get p "user") "name") as [pn|] eqn:E1.
  2:{ apply member_None in E1. split; [by left | done]. }
  assert (Hp : is_nullish (get p "user") = false).
  { destruct (is_nullish (get p "user")) eqn:E; [|done].
    apply (member_None h _ "name") in E. congruence. }
  destruct (member h (get q "user") "name") as [qn|] eqn:E2.
  2:{ apply member_None in E2. split; [by right | done]. }
  assert (Hq : is_nullish (get q "user") = false).
  { destruct (is_nullish (get q "user")) eqn:E; [|done].
    apply (member_None h _ "name") in E. congruence. }
  destruct (strict_eq pn qn).
  - destruct (member h (get p "user") "age") eqn:E3.
    2:{ apply member_None in E3. congruence. }
    destruct (member h (get q "user") "age") eqn:E4.
    2:{ apply member_None in E4. congruence. }
    split; [discriminate | intros [H | H]; congruence].
  - split; [discriminate | intros [H | H]; congruence].
Qed.

Lemma arePropsEqual_same_user h (p q : gmap string value) :
  get p "user" = get q "user" ->
  member h (get p "user") "name" <> Some NaN ->
  member h (get p "user") "age" <> Some NaN ->
  arePropsEqual h p q <> Some false.
Proof.
  intros Hu Hn Ha. unfold arePropsEqual. rewrite <- Hu.
  destruct (member h (get p "user") "name") as [n|]; [|done].
  rewrite field_strict_eq_refl by congruence.
  destruct (member h (get p "user") "age") as [a|]; [|done].
  rewrite field_strict_eq_refl by congruence. done.
Qed.

(** X7: The custom comparison of [MyComplexComponent] against the default one.
    It throws exactly when one of the two [user] props is missing or [null].
    As long as the user's name and age are not [NaN] it is coarser than the
    default comparison: it never reports a change when the previous and next
    props are shallow-equal, and two [user] objects at different addresses
    with the same contents, which the default comparison treats as changed,
    it reports as equal.  A user whose name or age is [NaN] it reports as
    changed even against the very same props. *)
Theorem custom_comparison_coarser_than_shallow
    (h : gmap loc (gmap string field)) (p q : gmap string value) :
  (arePropsEqual h p q = None
   <-> is_nullish (get p "user") = true \/ is_nullish (get q "user") = true)
  /\ (React.shallowEqual p q = true ->
      member h (get p "user") "name" <> Some NaN ->
      member h (get p "user") "age" <> Some NaN ->
      arePropsEqual h p q <> Some false)
  /\ (forall l l' : loc,
        l <> l' -> h !! l = h !! l' ->
        member h (VObj l) "name" <> Some NaN ->
        member h (VObj l) "age" <> Some NaN ->
        arePropsEqual h {[ "user" := VObj l ]} {[ "user" := VObj l' ]} = Some true
        /\ React.shallowEqual {[ "user" := VObj l ]} {[ "user" := VObj l' ]} = false)
  /\ (member h (get p "user") "name" = Some NaN
      \/ (is_nullish (get p "user") = false
          /\ member h (get p "user") "age" = Some NaN) ->
      arePropsEqual h p p = Some false).
Proof.
  split; [apply arePropsEqual_None|]. split; [|split].
  - intros [Hdom Hf]%shallowEqual_spec.
    apply arePropsEqual_same_user.
    unfold get. destruct (p !! "user") as [x|] eqn:Ep.
    + assert (Hk : "user" ∈ dom q) by (rewrite <- Hdom; apply elem_of_dom; eauto).
      apply elem_of_dom in Hk as [y Hy]. rewrite Hy. simpl.
      apply object_is_spec. by apply (Hf "user").
    + apply not_elem_of_dom in Ep. rewrite Hdom in Ep.
      apply not_elem_of_dom in Ep. by rewrite Ep.
  - intros l l' Hne Heq Hn Ha. split.
    + unfold arePropsEqual, get. rewrite !lookup_singleton_eq.
      simpl in *. rewrite <- Heq.
      rewrite !field_strict_eq_refl by congruence. done.
    + rewrite shallowEqual_singleton. apply strict_eq_false. congruence.
  - unfold arePropsEqual. intros [Hn | [Hu Ha]].
    + by rewrite Hn.
    + destruct (member h (get p "user") "name") as [n|] eqn:En.
      2:{ apply member_None in En. congruence. }
      destruct (strict_eq n n); [|done]. by rewrite Ha.
Qed.

Lemma custom_comparison_coarser_than_shallow_witness :
  let user : gmap string field :=
    <[ "name" := Plain (VStr "Ada") ]> {[ "age" := Plain (VNum 36) ]} in
  let ageless : gmap string field :=
    <[ "name" := Plain (VStr "Bob") ]> {[ "age" := NaN ]} in
  let h : gmap loc (gmap string field) :=
    <[ 1%positive := user ]> (<[ 2%positive := user ]> {[ 3%positive := ageless ]}) in
  (1%positive <> 2%positive
   /\ h !! 1%positive = h !! 2%positive
   /\ member h (VObj 1%positive) "name" <> Some NaN
   /\ member h (VObj 1%positive) "age" <> Some NaN
   /\ arePropsEqual h {[ "user" := VObj 1%positive ]} {[ "user" := VObj 2%positive ]}
      = Some true
   /\ React.shallowEqual {[ "user" := VObj 1%positive ]} {[ "user" := VObj 2%positive ]}
      = false
   /\ arePropsEqual h {[ "user" := VObj 1%positive ]} {[ "user" := VObj 1%positive ]}
      <> Some false)
  /\ (member h (VObj 3%positive) "age" = Some NaN
      /\ arePropsEqual h {[ "user" := VObj 3%positive ]} {[ "user" := VObj 3%positive ]}
         = Some false).
Proof.
  intros user ageless h.
  assert (Hne : 1%positive <> 2%positive) by discriminate.
  assert (Heq : h !! 1%positive = h !! 2%positive) by reflexivity.
  assert (Hn : member h (VObj 1%positive) "name" <> Some NaN) by discriminate.
  assert (Ha : member h (VObj 1%positive) "age" <> Some NaN) by discriminate.
  assert (Hnan : member h (VObj 3%positive) "age" = Some NaN) by reflexivity.
  pose proof (custom_comparison_coarser_than_shallow h
                {[ "user" := VObj 1%positive ]} {[ "user" := VObj 1%positive ]})
    as (_ & Hsh & Hdiff & _).
  destruct (Hdiff 1%positive 2%positive Hne Heq Hn Ha) as [H1 H2].
  split.
  - split; [exact Hne|]. split; [exact Heq|]. split; [exact Hn|]. split; [exact Ha|].
    split; [exact H1|]. split; [exact H2|].
    apply Hsh; [vm_compute; reflexivity | exact Hn | exact Ha].
  - split; [exact Hnan|].
    apply (proj2 (proj2 (proj2 (custom_comparison_coarser_than_shallow h
             {[ "user" := VObj 3%positive ]} {[ "user" := VObj 3%positive ]})))).
    right. split; [reflexivity | exact Hnan].
Defined.

End CustomComparisonFacts.

(** ** The resize listener *)

Section ResizeFacts.
Import ResizeListener.

Lemma cleanup_inv_step (w : world) (e : event) :
  cleanup_inv w -> cleanup_inv (step ReturnsCleanup w e).
Proof.
  unfold cleanup_inv, step. intros H.
  destruct e as [| |x], (component w) as [m|] eqn:Em; simpl; rewrite ?Em; try done.
  - by rewrite H.
  - destruct H as (Hl & Hc & Hw). rewrite Hc, Hl. unfold removeEventListener.
    rewrite filter_cons_False by (intros Hn; by apply Hn). done.
  - destruct H as (Hl & Hc & Hw). rewrite Hl.
    rewrite bool_decide_eq_true_2 by (by left). done.
Qed.

Lemma cleanup_inv_run (evs : list event) : forall w,
  cleanup_inv w -> cleanup_inv (run ReturnsCleanup w evs).
Proof.
  induction evs as [|e evs IH]; intros w H; [done|].
  apply IH, cleanup_inv_step, H.
Qed.

(** X8: The snippet's component cleans up after itself: over every sequence of
    mounts, unmounts and resizes, while it is mounted its [handleResize] is
    the one resize listener on [window] and the width it shows is
    [window.innerWidth]; while it is not, no listener is left. *)
Theorem resize_listener_cleaned_up (w0 : Z) (evs : list event) :
  let w := run ReturnsCleanup (start w0) evs in
  match component w with
  | Some m => listeners w = [handleResize m] /\ width m = innerWidth w
  | None => listeners w = []
  end.
Proof.
  intros w. assert (H : cleanup_inv w) by (by apply cleanup_inv_run).
  unfold cleanup_inv in H. destruct (component w); [|done]. by destruct H as (? & _ & ?).
Qed.

Lemma resize_inv_step (v : version) (w : world) (e : event) :
  resize_inv w -> resize_inv (step v w e).
Proof.
  unfold resize_inv, step. intros (Hlt & Hnd & Hc).
  destruct e as [| |x], (component w) as [m|] eqn:Em; simpl; rewrite ?Em; try done.
  - split; [|split; [|split; [|done]]].
    + apply Forall_app. split.
      * eapply Forall_impl; [exact Hlt|]. simpl. intros l Hl. lia.
      * repeat constructor. lia.
    + apply NoDup_app. split; [done|]. split; [|apply NoDup_singleton].
      intros l Hl ->%list_elem_of_singleton.
      rewrite Forall_forall in Hlt. specialize (Hlt _ Hl). lia.
    + apply elem_of_app. right. by left.
  - split; [|split; [|done]].
    + destruct (cleanup m); [|done]. unfold removeEventListener.
      apply Forall_forall. intros x [_ Hx]%list_elem_of_filter.
      rewrite Forall_forall in Hlt. by apply Hlt.
    + destruct (cleanup m); [|done]. by apply NoDup_filter.
  - destruct Hc as [Hin Hw]. rewrite bool_decide_eq_true_2 by done. simpl. done.
Qed.

Lemma resize_inv_run (v : version) (evs : list event) : forall w,
  resize_inv w -> resize_inv (run v w evs).
Proof.
  induction evs as [|e evs IH]; intros w H; [done|].
  apply IH, resize_inv_step, H.
Qed.

Lemma resize_inv_start (w0 : Z) : resize_inv (start w0).
Proof. repeat split; constructor. Qed.

Lemma leak_cycle (w : world) :
  component w = None ->
  component (cycle ReturnsNothing w) = None
  /\ listeners (cycle ReturnsNothing w) = listeners w ++ [next_address w].
Proof. intros H. unfold cycle, step. rewrite H. simpl. done. Qed.

Lemma leak_cycles (k : nat) : forall w,
  component w = None ->
  component (Nat.iter k (cycle ReturnsNothing) w) = None
  /\ length (listeners (Nat.iter k (cycle ReturnsNothing) w))
     = length (listeners w) + k.
Proof.
  induction k as [|k IH]; intros w H; simpl; [split; [done | lia]|].
  destruct (IH w H) as [Hc Hl].
  destruct (leak_cycle _ Hc) as [Hc' Hl'].
  split; [done|]. rewrite Hl', length_app, Hl. simpl. lia.
Qed.

(** X9: The write-up's version without the cleanup leaks: in every state the
    component can be in, the width it shows is still [window.innerWidth]
    while it is mounted, but an unmount removes no listener, and from an
    unmounted state [k] further mount/unmount cycles leave [k] more
    listeners on [window]. *)
Theorem resize_listener_leaks (w0 : Z) (evs : list event) (k : nat) :
  let w := run ReturnsNothing (start w0) evs in
  (forall m, component w = Some m ->
             width m = innerWidth w
             /\ listeners (step ReturnsNothing w Unmount) = listeners w)
  /\ (component w = None ->
      length (listeners (Nat.iter k (cycle ReturnsNothing) w))
      = length (listeners w) + k).
Proof.
  intros w. split.
  - intros m Hm.
    assert (Hnc : forall evs' u, component u = None \/
                    (exists m', component u = Some m' /\ cleanup m' = None) ->
                    component (run ReturnsNothing u evs') = None \/
                    exists m', component (run ReturnsNothing u evs') = Some m'
                               /\ cleanup m' = None).
    { clear. induction evs' as [|e evs' IH]; intros u Hu; [done|].
      apply IH. unfold step, resize.
      destruct e as [| |x], Hu as [Hu | (m' & Hu & Hcl)]; simpl; rewrite ?Hu; simpl;
        eauto.
      destruct (bool_decide _); eauto. }
    destruct (Hnc evs (start w0)) as [Hn | (m' & Hm' & Hcl)]; [by left| |].
    { fold w in Hn. congruence. }
    fold w in Hm'. assert (m' = m) as -> by congruence.
    pose proof (resize_inv_run ReturnsNothing evs _ (resize_inv_start w0)) as (_ & _ & Hc).
    fold w in Hc. rewrite Hm in Hc. split; [apply Hc|].
    unfold step. rewrite Hm. simpl. by rewrite Hcl.
  - intros Hn. by apply leak_cycles.
Qed.

Lemma resize_listener_leaks_witness :
  let w := run ReturnsNothing (start 800) [Mount; Resize 640] in
  let u := run ReturnsNothing (start 800) [Mount; Resize 640; Unmount] in
  component w = Some {| width := 640; handleResize := 1%positive; cleanup := None |}
  /\ listeners (step ReturnsNothing w Unmount) = listeners w
  /\ component u = None
  /\ length (listeners (Nat.iter 3 (cycle ReturnsNothing) u)) = 4.
Proof.
  intros w u.
  assert (Hw : component w
               = Some {| width := 640; handleResize := 1%positive; cleanup := None |})
    by reflexivity.
  assert (Hu : component u = None) by reflexivity.
  split; [exact Hw|]. split.
  - exact (proj2 (proj1 (resize_listener_leaks 800 [Mount; Resize 640] 0) _ Hw)).
  - split; [exact Hu|].
    exact (proj2 (resize_listener_leaks 800 [Mount; Resize 640; Unmount] 3) Hu).
Defined.

End ResizeFacts.

(** ** Memoized callbacks, derived state and events handled in effects *)

Section OverOptimizedFacts.
Import OverOptimizedComponent.

Lemma logCount_inv_mount : logCount_inv mount.2.
Proof. exists {| address := 1%positive; captured := 0 |}. repeat split. Qed.

Lemma logCount_step (i : instance) (e : event) :
  logCount_inv i ->
  logCount_inv (step i e).2
  /\ (step i e).1 = match e with
                    | Click => [ConsoleLog [VStr "Current count:"; VNum (count i + 1)]]
                    | Rerender => []
                    end
  /\ count (step i e).2 = match e with
                          | Click => (count i + 1)%Z
                          | Rerender => count i
                          end.
Proof.
  intros (f & Hf & Hc & Hd & Hlt). destruct e; cbn [step].
  - replace (React.state_changed (VNum (count i)) (VNum (count i + 1))) with true.
    2:{ symmetry. apply negb_true_iff, Z.eqb_neq. lia. }
    unfold render, useCallback. cbn [logCount count next_address effect_deps].
    rewrite Hf, Hd. cbn [React.areHookInputsEqual object_is strict_eq].
    replace (count i =? count i + 1)%Z with false by (symmetry; apply Z.eqb_neq; lia).
    cbn [andb address React.effect_due React.areHookInputsEqual object_is strict_eq].
    replace (address f =? next_address i)%positive with false
      by (symmetry; apply Pos.eqb_neq; lia).
    cbn [andb negb fst snd call captured]. split; [|done].
    exists {| address := next_address i; captured := count i + 1 |}.
    split; [done|]. split; [done|]. split; [done|].
    cbn [address next_address]. lia.
  - unfold render, useCallback. rewrite Hf, Hd.
    cbn [React.areHookInputsEqual]. rewrite strict_eq_refl.
    cbn [andb address React.effect_due React.areHookInputsEqual].
    rewrite strict_eq_refl. cbn [andb negb fst snd]. split; [|done].
    exists f. cbn. by repeat split.
Qed.

Lemma logCount_run (evs : list event) : forall i,
  logCount_inv i ->
  (run i evs).1
  = map (λ k, ConsoleLog [VStr "Current count:"; VNum (count i + Z.of_nat (S k))])
        (seq 0 (count_occ event_eq_dec evs Click))
  /\ count (run i evs).2 = (count i + Z.of_nat (count_occ event_eq_dec evs Click))%Z.
Proof.
  induction evs as [|e evs IH]; intros i Hi.
  - simpl. split; [done | lia].
  - destruct (logCount_step i e Hi) as (Hi' & Hout & Hcount). cbn [run].
    destruct (step i e) as [out i']. cbn [fst snd] in *.
    destruct (IH i' Hi') as [Ho Hc]. destruct (run i' evs) as [outs i'']. cbn [fst snd] in *.
    rewrite Hout, Ho, Hc, Hcount. destruct e.
    + rewrite count_occ_cons_eq by done. cbn [seq map app]. split; [|lia].
      f_equal.
      rewrite <- seq_shift, map_map. apply map_ext. intros k. do 4 f_equal. lia.
    + rewrite count_occ_cons_neq by done. done.
Qed.

(** X10: In [OverOptimizedComponent] the effect is never stale: it logs the count
    0 at mount and, over every sequence of clicks and renders without a
    change, the new count after each click, and nothing for a render that
    did not change the count. *)
Theorem logCount_logs_current_count (evs : list event) :
  mount.1 ++ (run mount.2 evs).1
  = map (λ k, ConsoleLog [VStr "Current count:"; VNum (Z.of_nat k)])
        (seq 0 (S (count_occ event_eq_dec evs Click)))
  /\ count (run mount.2 evs).2 = Z.of_nat (count_occ event_eq_dec evs Click).
Proof.
  destruct (logCount_run evs mount.2 logCount_inv_mount) as [Ho Hc].
  rewrite Ho. split; [|exact Hc].
  cbn [seq map]. change mount.1 with [ConsoleLog [VStr "Current count:"; VNum 0]].
  cbn [app]. f_equal. rewrite <- seq_shift, map_map. apply map_ext.
  intros k. do 4 f_equal.
Qed.

End OverOptimizedFacts.

Section UserProfileFacts.
Import UserProfile.

Lemma derived_not_empty (f l : string) : derived f l <> "".
Proof. unfold derived. destruct f; discriminate. Qed.

Lemma derived_inj (f l f' l' : string) :
  [VStr f; VStr l] = [VStr f'; VStr l'] -> derived f l = derived f' l'.
Proof. by intros [= -> ->]. Qed.

Lemma profile_update (f l : string) (i : instance) :
  profile_inv i ->
  profile_inv (update f l i).2
  /\ fullName (update f l i).2 = derived f l
  /\ last (update f l i).1 = Some (derived f l)
  /\ ((update f l i).1 = [derived f l]
      \/ (update f l i).1 = [fullName i; derived f l] /\ fullName i <> derived f l).
Proof.
  intros Hi. unfold update.
  destruct (React.effect_due (effect_deps i) [VStr f; VStr l]) eqn:Hdue.
  - destruct (React.state_changed _ _) eqn:Hch; cbn [fst snd].
    + split; [right; by exists f, l|]. split; [done|]. split; [done|].
      right. split; [done|]. intros E. rewrite E in Hch.
      unfold React.state_changed in Hch. by rewrite strict_eq_refl in Hch.
    + apply negb_false_iff, object_is_spec in Hch. injection Hch as Hch.
      split; [right; by exists f, l|]. rewrite Hch. by repeat split; try left.
  - destruct Hi as [[Hd _] | (f' & l' & Hd & Hn)]; rewrite Hd in Hdue; [done|].
    cbn [React.effect_due React.areHookInputsEqual] in Hdue.
    apply negb_false_iff in Hdue. rewrite andb_true_r in Hdue.
    apply andb_true_iff in Hdue as [Hf Hl].
    apply object_is_spec in Hf, Hl. injection Hf as ->. injection Hl as ->.
    cbn [fst snd]. rewrite Hn.
    split; [right; by exists f, l|]. by repeat split; try left.
Qed.

(** X11: The BAD [UserProfile] ends every update showing what the GOOD one
    computes in its render, the first name, a space and the last name, and
    keeps it as its state; but it may first show what it held before (the
    empty string at mount), and then needs a second render. *)
Theorem derived_state_catches_up (props : list (string * string)) (f l : string) :
  let i := (run init props).2 in
  let shown := (update f l i).1 in
  last shown = Some (derived f l)
  /\ fullName (update f l i).2 = derived f l
  /\ (shown = [derived f l]
      \/ shown = [fullName i; derived f l] /\ fullName i <> derived f l)
  /\ (update f l init).1 = [""; derived f l].
Proof.
  intros i shown.
  assert (Hi : profile_inv i).
  { unfold i. assert (H0 : profile_inv init) by (by left).
    revert H0. generalize init. induction props as [|[f' l'] props IH]; intros j Hj; [done|].
    cbn [run]. destruct (profile_update f' l' j Hj) as (Hj' & _).
    destruct (update f' l' j) as [s j']. specialize (IH j' Hj').
    by destruct (run j' props). }
  destruct (profile_update f l i Hi) as (_ & Hn & Hlast & Hshown).
  split; [exact Hlast|]. split; [exact Hn|]. split; [exact Hshown|].
  unfold update, init. cbn [React.effect_due effect_deps fullName].
  replace (React.state_changed (VStr "") (VStr (derived f l))) with true; [done|].
  symmetry. apply negb_true_iff, strict_eq_false. intros [= E].
  by apply (derived_not_empty f l).
Qed.

End UserProfileFacts.

Section ButtonEffectFacts.
Import ButtonEffect.





End ButtonEffectFacts.

(** ** The write-up's corrected components *)

Section CorrectedStaleClosureFacts.
Import CorrectedStaleClosure.

Lemma fresh_interval_mount : fresh_interval mount.
Proof. by repeat split. Qed.

Lemma fresh_set_count (i : instance) :
  fresh_interval i ->
  fresh_interval (set_count (count i + 1) i)
  /\ count (set_count (count i + 1) i) = (count i + 1)%Z.
Proof.
  intros (Hm & Hld & Hli & Hid & Hii). unfold set_count.
  replace (React.state_changed (VNum (count i)) (VNum (count i + 1))) with true.
  2:{ symmetry. apply negb_true_iff, Z.eqb_neq. lia. }
  unfold commit. cbn [count log_deps log_interval inc_deps inc_interval mounted].
  rewrite Hld, Hid. cbn [React.effect_due React.areHookInputsEqual object_is strict_eq].
  replace (count i =? count i + 1)%Z with false by (symmetry; apply Z.eqb_neq; lia).
  by repeat split.
Qed.

Lemma fresh_step (i : instance) (e : event) :
  fresh_interval i -> e <> Unmount ->
  fresh_interval (step i e).2
  /\ (step i e).1 = (if decide (e = TickLog) then log_callback (count i) else [])
  /\ count (step i e).2
     = (count i + if decide (e = TickLog) then 0 else 1)%Z.
Proof.
  intros Hi Hne. pose proof Hi as (Hm & Hld & Hli & Hid & Hii).
  destruct (fresh_set_count i Hi) as [Hs Hc].
  destruct e; cbn [step]; rewrite ?Hm, ?Hli, ?Hii; cbn [fst snd]; try done.
  split; [done|]. split; [done|]. simpl. lia.
Qed.

Lemma fresh_run (evs : list event) : forall i,
  fresh_interval i -> ~ In Unmount evs ->
  fresh_interval (run i evs).2
  /\ count (run i evs).2
     = (count i + Z.of_nat (count_occ event_eq_dec evs Click
                            + count_occ event_eq_dec evs TickInc))%Z.
Proof.
  induction evs as [|e evs IH]; intros i Hi Hn.
  - simpl. split; [done | lia].
  - assert (Hne : e <> Unmount) by (intros ->; apply Hn; by left).
    assert (Hn' : ~ In Unmount evs) by (intros H; apply Hn; by right).
    destruct (fresh_step i e Hi Hne) as (Hi' & _ & Hc). cbn [run].
    destruct (step i e) as [out i']. cbn [fst snd] in *.
    destruct (IH i' Hi' Hn') as [Hf Hc']. destruct (run i' evs) as [outs i''].
    cbn [fst snd] in *. split; [done|]. rewrite Hc', Hc.
    destruct e; simpl; try lia. done.
Qed.

Lemma corrected_stale_run_app (evs : list event) : forall i evs',
  (run i (evs ++ evs')).1 = (run i evs).1 ++ (run (run i evs).2 evs').1.
Proof.
  induction evs as [|e evs IH]; intros i evs'; simpl.
  - by destruct (run i evs').
  - destruct (step i e) as [out i']. specialize (IH i' evs').
    destruct (run i' (evs ++ evs')) as [o1 j1]. destruct (run i' evs) as [o2 j2].
    simpl in *. by rewrite IH, app_assoc.
Qed.

(** X14: In the write-up's corrected component the timer is never stale: while
    the component is mounted, after any sequence of clicks and ticks of the
    two timers, the state is the number of clicks plus the number of ticks
    of the incrementing timer, and a tick of the logging timer writes
    exactly that number. *)
Theorem corrected_interval_logs_current_count (evs : list event) :
  ~ In Unmount evs ->
  let n := Z.of_nat (count_occ event_eq_dec evs Click
                     + count_occ event_eq_dec evs TickInc) in
  count (run mount evs).2 = n
  /\ (run mount (evs ++ [TickLog])).1
     = (run mount evs).1 ++ [ConsoleLog [VStr "Current count from interval:"; VNum n]].
Proof.
  intros Hn n.
  destruct (fresh_run evs mount fresh_interval_mount Hn) as [Hf Hc].
  split; [exact Hc|]. rewrite corrected_stale_run_app. f_equal.
  destruct Hf as (_ & _ & Hli & _). simpl. rewrite Hli. simpl.
  unfold log_callback. by rewrite Hc.
Qed.

Lemma corrected_interval_logs_current_count_witness :
  let evs := [Click; TickInc; TickLog; Click] in
  ~ In Unmount evs
  /\ (run mount (evs ++ [TickLog])).1
     = [ConsoleLog [VStr "Current count from interval:"; VNum 2];
        ConsoleLog [VStr "Current count from interval:"; VNum 3]].
Proof.
  intros evs.
  assert (Hn : ~ In Unmount evs).
  { intros [H | [H | [H | [H | []]]]]; discriminate H. }
  split; [exact Hn|].
  exact (proj2 (corrected_interval_logs_current_count evs Hn)).
Defined.

End CorrectedStaleClosureFacts.

(** ** Answers that arrive late *)

Section LateAnswerFacts.
Import Fetch.

(** X15: The hazard of [RaceConditionComponent]: when [userId] changes from [a]
    to [b] and the answer for [a] arrives after the one for [b], the
    component ends up showing the user of [a] although its [userId] is [b]. *)
Theorem stale_response_overwrites
    (h : gmap loc (gmap string value)) (a b : Z) (user_a user_b : value) :
  a <> b ->
  let i := (RaceConditionComponent.run (RaceConditionComponent.mount a).2
              [SetUserId b; Resolve 1 user_b; Resolve 0 user_a]).2 in
  RaceConditionComponent.userId i = b
  /\ RaceConditionComponent.user i = user_a
  /\ RaceConditionComponent.loading i = false
  /\ UserView.render h (RaceConditionComponent.loading i) (RaceConditionComponent.user i)
     = if UserView.truthy user_a then UserView.User (get_field h user_a "name")
       else UserView.NoUserFound.
Proof.
  intros Hne i. unfold i. cbn [RaceConditionComponent.run RaceConditionComponent.step].
  cbn [RaceConditionComponent.mount RaceConditionComponent.effect snd
       RaceConditionComponent.effect_deps].
  replace (React.effect_due (Some (RaceConditionComponent.deps a))
             (RaceConditionComponent.deps b)) with true.
  2:{ symmetry. apply negb_true_iff. simpl. rewrite andb_true_r.
      apply Z.eqb_neq. congruence. }
  simpl. done.
Qed.

Lemma stale_response_overwrites_witness :
  let h : gmap loc (gmap string value) :=
    <[ 1%positive := {[ "name" := VStr "Ada" ]} ]> {[ 2%positive := {[ "name" := VStr "Bob" ]} ]} in
  let i := (RaceConditionComponent.run (RaceConditionComponent.mount 1).2
              [SetUserId 2; Resolve 1 (VObj 2%positive); Resolve 0 (VObj 1%positive)]).2 in
  1%Z <> 2%Z
  /\ RaceConditionComponent.userId i = 2%Z
  /\ UserView.render h (RaceConditionComponent.loading i) (RaceConditionComponent.user i)
     = UserView.User (VStr "Ada").
Proof.
  intros h i.
  assert (Hne : 1%Z <> 2%Z) by discriminate.
  destruct (stale_response_overwrites h 1 2 (VObj 1%positive) (VObj 2%positive) Hne)
    as (Hu & _ & _ & Hv).
  split; [exact Hne|]. split; [exact Hu | exact Hv].
Defined.

Lemma abort_leaves_none_pending (sg : loc) (earlier : list request) (latest : request) :
  signal latest = Some sg ->
  Forall (λ r, state r <> Pending) earlier ->
  Forall (λ r, state r <> Pending) (abort sg (earlier ++ [latest])).
Proof.
  intros Hs He. unfold abort. rewrite map_app. apply Forall_app. split.
  - induction He as [|r rs Hr _ IH]; simpl; constructor; [|exact IH].
    destruct (bool_decide _ && bool_decide _); [discriminate | exact Hr].
  - simpl. constructor; [|constructor]. rewrite Hs.
    rewrite (bool_decide_eq_true_2 (Some sg = Some sg)) by done. simpl.
    case_bool_decide; [discriminate | done].
Qed.

Lemma settle_keeps_latest (k : nat) (sg : loc) (earlier : list request) (latest : request) :
  signal latest = Some sg ->
  Forall (λ r, state r <> Pending) earlier ->
  exists earlier' latest',
    settle k (earlier ++ [latest]) = earlier' ++ [latest']
    /\ signal latest' = Some sg
    /\ Forall (λ r, state r <> Pending) earlier'.
Proof.
  intros Hs He. unfold settle. rewrite alter_app. case_decide.
  - eexists _, latest. split; [reflexivity|]. split; [done|].
    apply Forall_alter; [done|]. intros r _ _. discriminate.
  - destruct (k - length earlier); simpl.
    + eexists earlier, _. split; [reflexivity|]. by split.
    + by exists earlier, latest.
Qed.

Lemma one_in_flight_mount (a : Z) : one_in_flight (CorrectedSession.mount a).2.
Proof.
  split; [done|]. eexists [], _, _. split; [reflexivity|]. by repeat split.
Qed.

Lemma one_in_flight_step h (s : CorrectedSession.session) (e : event) :
  one_in_flight s -> one_in_flight (CorrectedSession.step h s e).2.
Proof.
  intros Hs. pose proof Hs as (Hd & earlier & latest & sg & Hr & Hsg & Hc & He).
  destruct e as [id | k data | k error]; cbn [CorrectedSession.step].
  - destruct (React.effect_due _ _) eqn:Hdue; [|exact Hs].
    unfold CorrectedRaceConditionComponent.set_userId. rewrite Hdue.
    unfold CorrectedRaceConditionComponent.run_cleanup. rewrite Hc.
    split; [done|]. cbn.
    eexists _, _, _. split; [reflexivity|]. split; [reflexivity|]. split; [reflexivity|].
    rewrite Hr. by apply abort_leaves_none_pending.
  - destruct (_ !! k) as [[u sgk []]|]; try exact Hs.
    split; [done|]. cbn. rewrite Hr.
    destruct (settle_keeps_latest k sg earlier latest Hsg He) as (e' & l' & -> & H1 & H2).
    by exists e', l', sg.
  - destruct (_ !! k) as [[u sgk st]|]; [|exact Hs].
    destruct (CorrectedSession.started s !! k) as [id|]; [|by destruct st].
    destruct st; try exact Hs.
    all: split; [done|]; cbn; rewrite Hr;
      destruct (settle_keeps_latest k sg earlier latest Hsg He) as (e' & l' & -> & H1 & H2);
      by exists e', l', sg.
Qed.

Lemma one_in_flight_run h (evs : list event) : forall s,
  one_in_flight s -> one_in_flight (CorrectedSession.run h s evs).2.
Proof.
  induction evs as [|e evs IH]; intros s Hs; [done|]. cbn [CorrectedSession.run].
  pose proof (one_in_flight_step h s e Hs) as Hs'.
  destruct (CorrectedSession.step h s e) as [out s']. specialize (IH s' Hs').
  by destruct (CorrectedSession.run h s' evs).
Qed.

(** X16: The corrected component has at most one request in flight: in every
    state it can reach, over any sequence of [userId] changes, answers and
    rejections, only the request started last can be pending, so an answer
    for an earlier request cannot arrive, and handing one to the component
    changes nothing. *)
Theorem corrected_ignores_earlier_requests
    (h : gmap loc (gmap string value)) (a : Z) (evs : list event)
    (k : nat) (data : value) :
  let s := (CorrectedSession.run h (CorrectedSession.mount a).2 evs).2 in
  let reqs := CorrectedRaceConditionComponent.requests (CorrectedSession.component s) in
  (forall j r, reqs !! j = Some r -> state r = Pending -> S j = length reqs)
  /\ (S k < length reqs -> CorrectedSession.step h s (Resolve k data) = ([], s)).
Proof.
  intros s reqs.
  assert (Hs : one_in_flight s) by apply one_in_flight_run, one_in_flight_mount.
  destruct Hs as (_ & earlier & latest & sg & Hr & _ & _ & He).
  fold reqs in Hr.
  assert (Hlast : forall j r, reqs !! j = Some r -> state r = Pending -> S j = length reqs).
  { intros j r Hj Hp. rewrite Hr in Hj |- *. rewrite length_app. simpl.
    apply lookup_snoc_Some in Hj as [[Hlt Hj] | [-> _]]; [|lia].
    rewrite Forall_lookup in He. by destruct (He j r Hj). }
  split; [exact Hlast|]. intros Hk. cbn [CorrectedSession.step]. fold reqs.
  destruct (reqs !! k) as [[u sgk []]|] eqn:E; try done.
  specialize (Hlast k _ E eq_refl). lia.
Qed.

Lemma corrected_ignores_earlier_requests_witness :
  let s := (CorrectedSession.run ∅ (CorrectedSession.mount 1).2 [SetUserId 2]).2 in
  (S 0 < length (CorrectedRaceConditionComponent.requests (CorrectedSession.component s)))%nat
  /\ CorrectedSession.step ∅ s (Resolve 0 (VStr "user 1")) = ([], s).
Proof.
  intros s.
  assert (Hk : (S 0 < length (CorrectedRaceConditionComponent.requests
                              (CorrectedSession.component s)))%nat)
    by (vm_compute; lia).
  split; [exact Hk|].
  exact (proj2 (corrected_ignores_earlier_requests ∅ 1 [SetUserId 2] 0 (VStr "user 1")) Hk).
Defined.

(** X17: The corrected component still has a flaw: its [finally] block runs for
    the aborted request too.  When [userId] changes from [a] to [b] and the
    AbortError of the first request is delivered, the handler logs "Fetch
    aborted for user:" [a] and sets [loading] to false, so the component
    shows "No user found." while the request for [b] is still pending. *)
Theorem abort_clears_loading_too_early
    (h : gmap loc (gmap string value)) (a b : Z) (error : value) :
  a <> b -> get_field h error "name" = VStr "AbortError" ->
  let r := CorrectedSession.run h (CorrectedSession.mount a).2
             [SetUserId b; Reject 0 error] in
  let i := CorrectedSession.component r.2 in
  r.1 = [ConsoleLog [VStr ("Fetching user " +:+ pretty b +:+ "...")];
         ConsoleLog [VStr "Fetch aborted for user:"; VNum a]]
  /\ CorrectedRaceConditionComponent.userId i = b
  /\ state <$> CorrectedRaceConditionComponent.requests i !! 1%nat = Some Pending
  /\ CorrectedRaceConditionComponent.loading i = false
  /\ UserView.render h (CorrectedRaceConditionComponent.loading i)
                       (CorrectedRaceConditionComponent.user i)
     = UserView.NoUserFound.
Proof.
  intros Hne Hname r i. unfold i, r.
  cbn [CorrectedSession.run CorrectedSession.step CorrectedSession.mount
       CorrectedRaceConditionComponent.mount CorrectedRaceConditionComponent.effect
       snd CorrectedSession.component CorrectedRaceConditionComponent.effect_deps].
  assert (Hdue : React.effect_due (Some (CorrectedRaceConditionComponent.deps a))
                   (CorrectedRaceConditionComponent.deps b) = true).
  { apply negb_true_iff. simpl. rewrite andb_true_r. apply Z.eqb_neq. congruence. }
  rewrite Hdue. unfold CorrectedRaceConditionComponent.set_userId.
  cbn [CorrectedRaceConditionComponent.effect_deps]. rewrite Hdue.
  apply member_of_get_field in Hname.
  simpl. unfold CorrectedRaceConditionComponent.catch_block. rewrite Hname.
  simpl. done.
Qed.

Lemma abort_clears_loading_too_early_witness :
  let h : gmap loc (gmap string value) := {[ 1%positive := {[ "name" := VStr "AbortError" ]} ]} in
  let r := CorrectedSession.run h (CorrectedSession.mount 1).2
             [SetUserId 2; Reject 0 (VObj 1%positive)] in
  1%Z <> 2%Z
  /\ get_field h (VObj 1%positive) "name" = VStr "AbortError"
  /\ CorrectedRaceConditionComponent.loading (CorrectedSession.component r.2) = false
  /\ state <$> CorrectedRaceConditionComponent.requests (CorrectedSession.component r.2) !! 1%nat
     = Some Pending.
Proof.
  intros h r.
  assert (Hne : 1%Z <> 2%Z) by discriminate.
  assert (Hname : get_field h (VObj 1%positive) "name" = VStr "AbortError") by reflexivity.
  destruct (abort_clears_loading_too_early h 1 2 (VObj 1%positive) Hne Hname)
    as (_ & _ & Hp & Hl & _).
  split; [exact Hne|]. split; [exact Hname|]. split; [exact Hl | exact Hp].
Defined.

End LateAnswerFacts.
